(** * UDPWrap: the UDP socket binding of src/udp_wrap.cc

    A shallow embedding of [node::UDPWrap].  The binding is a thin layer
    between three collaborators:

    - the JavaScript side, which calls the prototype methods ([bind],
      [send], [recvStart], ...) and receives [oncomplete] / [onmessage]
      callbacks through [MakeCallback];
    - libuv, whose [uv_udp_*] primitives do the socket work and call back
      into [OnSend], [OnAlloc] and [OnRecv];
    - the slab allocator that hands out receive buffers.

    The C++ functions are written as computations in a small state and
    failure monad: the state holds everything the functions read or write
    (the process-wide errno, libuv's last error, the sockets, the live send
    requests, the slab allocator, and the traces of calls made to libuv and
    of callbacks made to JavaScript); failure is a tripped [assert] or
    [abort()].  What the operating system answers to a primitive is an
    explicit argument ([os_result]) of each function that reaches one. *)

From Stdlib Require Import ZArith List String Bool Lia Arith DecimalString.
Import ListNotations.
Open Scope Z_scope.

(** ** Machine integers *)

(** [args[i]->Uint32Value()] on an integral JavaScript number. *)
Definition Uint32Value (z : Z) : Z := z mod 2 ^ 32.

(** [args[i]->Int32Value()]: the same 32 bits read as a signed [int]. *)
Definition Int32Value (z : Z) : Z := (z + 2 ^ 31) mod 2 ^ 32 - 2 ^ 31.

(** Conversion of an unsigned 32-bit value to [int]. *)
Definition to_int (z : Z) : Z := (z + 2 ^ 31) mod 2 ^ 32 - 2 ^ 31.

(** Conversion to [unsigned int] / [uint32_t]. *)
Definition to_uint (z : Z) : Z := z mod 2 ^ 32.

(** Conversion to [unsigned short] (a port in network order has 16 bits). *)
Definition to_ushort (z : Z) : Z := z mod 2 ^ 16.

(** [size_t] is taken at 64 bits. *)
Definition SIZE_BITS : Z := 64.

Definition to_size_t (z : Z) : Z := z mod 2 ^ SIZE_BITS.

(** Subtraction of two [size_t] values wraps around. *)
Definition size_sub (a b : Z) : Z := (a - b) mod 2 ^ SIZE_BITS.

(** [#define SLAB_SIZE (1024 * 1024)] *)
Definition SLAB_SIZE : Z := 1024 * 1024.

(** ** Addresses, buffers and JavaScript values *)

(** The [family] argument of [DoBind] and [DoSend] is an [int]; the two
    entry points pass [AF_INET] and [AF_INET6]. *)
Inductive family : Type :=
| AF_INET
| AF_INET6
| AF_other (n : Z).

Definition family_eqb (a b : family) : bool :=
  match a, b with
  | AF_INET, AF_INET => true
  | AF_INET6, AF_INET6 => true
  | AF_other n, AF_other m => n =? m
  | _, _ => false
  end.

(** A wire address as built by [uv_ip4_addr] / [uv_ip6_addr]. *)
Record sockaddr : Type := mk_sockaddr {
  sa_family : family;
  sa_host : string;
  sa_port : Z
}.

Definition uv_ip4_addr (ip : string) (port : Z) : sockaddr :=
  mk_sockaddr AF_INET ip (to_ushort port).

Definition uv_ip6_addr (ip : string) (port : Z) : sockaddr :=
  mk_sockaddr AF_INET6 ip (to_ushort port).

(** A [char*]: the buffer object it points into and the byte offset. *)
Record ptr : Type := mk_ptr {
  blk : nat;
  off : Z
}.

(** A node [Buffer] object: its identity and [Buffer::Length]. *)
Record Buffer : Type := mk_Buffer {
  buf_id : nat;
  buf_length : Z
}.

Definition Buffer_Length (b : Buffer) : Z := buf_length b.

Definition Buffer_Data (b : Buffer) : ptr := mk_ptr (buf_id b) 0.

Definition ptr_add (p : ptr) (n : Z) : ptr := mk_ptr (blk p) (off p + n).

(** [p - q] is defined for two pointers into the same object only. *)
Definition ptr_diff (p q : ptr) : option Z :=
  if Nat.eqb (blk p) (blk q) then Some (off p - off q) else None.

Definition ptr_eqb (p q : ptr) : bool :=
  Nat.eqb (blk p) (blk q) && (off p =? off q).

Record uv_buf_t : Type := mk_uv_buf {
  base : ptr;
  len : Z
}.

Definition uv_buf_init (b : ptr) (l : Z) : uv_buf_t := mk_uv_buf b l.

(** JavaScript values, as far as the binding sees them.  [VSock h] is
    [wrap->object_] of socket [h], [VReq r] is [req_wrap->object_] of send
    request [r], [VAddress] is the object [AddressToJS] builds. *)
Inductive Value : Type :=
| VUndefined
| VNull
| VBool (b : bool)
| VInt (z : Z)
| VStr (s : string)
| VSock (h : nat)
| VReq (r : nat)
| VBuffer (b : Buffer)
| VAddress (a : option sockaddr).

Definition IsUndefined (v : Value) : bool :=
  match v with VUndefined => true | _ => false end.

Definition IsNull (v : Value) : bool :=
  match v with VNull => true | _ => false end.

(** [node::Utf8Value] (declared outside src/): the value converted to a
    string, as JavaScript's ToString does for the values the binding is
    given: an integral number of magnitude below 10^21 is printed in plain
    decimal, and a string without a NUL character is itself. *)
Definition Utf8Value (v : Value) : string :=
  match v with
  | VUndefined => "undefined"
  | VNull => "null"
  | VBool true => "true"
  | VBool false => "false"
  | VInt z => NilZero.string_of_int (Z.to_int z)
  | VStr s => s
  | _ => "[object Object]"
  end.

(** [AddressToJS] is defined in tcp_wrap.cc; the object it returns is kept
    as the address it was built from. *)
Definition AddressToJS (a : option sockaddr) : Value := VAddress a.

(** Modelled from the spec: the error codes of uv.h, which is not under
    src/.  [UV_OK] and [UV_EALREADY] are the two codes the source names; the
    others are the classes of the error taxonomy (argument error, bind
    conflict, transmission failure, receive failure, option-set failure) and
    the generic I/O failure that carries the raw code. *)
Inductive uv_err_code : Type :=
| UV_OK
| UV_EALREADY
| UV_EARGUMENT
| UV_EBINDCONFLICT
| UV_ETRANSMIT
| UV_ERECEIVE
| UV_EOPTION
| UV_EIO (raw : Z).

Definition is_EALREADY (c : uv_err_code) : bool :=
  match c with UV_EALREADY => true | _ => false end.

Record uv_err_t : Type := mk_uv_err {
  code : uv_err_code;
  sys_errno_ : Z
}.

Inductive uv_membership : Type :=
| UV_LEAVE_GROUP
| UV_JOIN_GROUP.

Inductive symbol : Type :=
| buffer_sym
| oncomplete_sym
| onmessage_sym.

(** One [MakeCallback(target, sym, argc, argv)], together with the value
    the process-wide errno had when the call was made. *)
Record Callback : Type := mk_Callback {
  cb_target : Value;
  cb_sym : symbol;
  cb_argv : list Value;
  cb_errno : option uv_err_t
}.

(** ** libuv handles and requests *)

(** What the operating system answers to a primitive. *)
Inductive os_result : Type :=
| OsOk
| OsFail (e : uv_err_t).

(** A [uv_udp_t]: the address the socket is bound to, if any, and whether
    receiving is armed. *)
Record uv_udp_t : Type := mk_uv_udp {
  bound : option sockaddr;
  recv_armed : bool
}.

(** A [SendWrap] ([ReqWrap<uv_udp_send_t>]): the hidden [buffer] value of
    its [object_], the [handle] field libuv fills in its [req_], and
    whether [Dispatched()] has been called. *)
Record SendWrap : Type := mk_SendWrap {
  hidden_buffer : option Value;
  req_handle : option nat;
  dispatched : bool
}.

Inductive sockopt : Type :=
| OptTTL
| OptBroadcast
| OptMulticastTTL
| OptMulticastLoop.

(** The calls made to libuv, with the arguments that reach it. *)
Inductive UvCall : Type :=
| UvBind (h : nat) (addr : sockaddr) (flags : Z)
| UvSetOpt (o : sockopt) (h : nat) (flag : Z)
| UvSetMembership (h : nat) (maddr : string) (iface : option string)
    (m : uv_membership)
| UvSend (req : nat) (h : nat) (buf : uv_buf_t) (nbufs : Z) (addr : sockaddr)
| UvRecvStart (h : nat)
| UvRecvStop (h : nat)
| UvGetSockName (h : nat).

(** ** The slab allocator *)

Inductive SlabCall : Type :=
| SlabAllocate (obj : nat) (size : Z)
| SlabShrink (obj : nat) (p : ptr) (size : Z).

(** Modelled from the spec: the state of [SlabAllocator] (slab_allocator.h
    and slab_allocator.cc are not under src/): a fixed capacity, the current
    slab and its write offset, for each consumer the parent buffer of the
    region it holds, the region carved last from the slab as long as it has
    not been shrunk, and the calls received. *)
Record SlabAllocator : Type := mk_Slab {
  size_ : Z;
  slab_ : Buffer;
  offset_ : Z;
  regions : list (nat * Buffer);
  next_buf : nat;
  last_ptr_ : option ptr;
  slab_log : list SlabCall
}.

(** [new SlabAllocator(SLAB_SIZE)] *)
Definition new_SlabAllocator (size : Z) : SlabAllocator :=
  mk_Slab size (mk_Buffer 0 size) 0 [] 1 None [].

Fixpoint region_of (obj : nat) (l : list (nat * Buffer)) : option Buffer :=
  match l with
  | [] => None
  | (o, b) :: l' => if Nat.eqb o obj then Some b else region_of obj l'
  end.

Fixpoint drop_region (obj : nat) (l : list (nat * Buffer))
  : list (nat * Buffer) :=
  match l with
  | [] => []
  | (o, b) :: l' =>
      if Nat.eqb o obj then drop_region obj l' else (o, b) :: drop_region obj l'
  end.

(** Modelled from the spec: [SlabAllocator::Allocate].  When the current
    slab has room the region is carved at the write offset, which advances
    by exactly [size]; otherwise a standalone buffer of exactly [size] bytes
    is made, outside the slab, and the slab is left as it is. *)
Definition slab_Allocate (obj : nat) (size : Z) (a : SlabAllocator)
  : ptr * SlabAllocator :=
  if offset_ a + size <=? size_ a then
    (ptr_add (Buffer_Data (slab_ a)) (offset_ a),
     mk_Slab (size_ a) (slab_ a) (offset_ a + size)
       ((obj, slab_ a) :: drop_region obj (regions a))
       (next_buf a)
       (Some (ptr_add (Buffer_Data (slab_ a)) (offset_ a)))
       (slab_log a ++ [SlabAllocate obj size]))
  else
    let fresh := mk_Buffer (next_buf a) size in
    (Buffer_Data fresh,
     mk_Slab (size_ a) (slab_ a) (offset_ a)
       ((obj, fresh) :: drop_region obj (regions a))
       (S (next_buf a)) (last_ptr_ a)
       (slab_log a ++ [SlabAllocate obj size])).

(** The write offset after the region at [p] has been shrunk to [size]
    bytes: the end of the final region when this region is the one carved
    last, so that the bytes it does not keep return to the slab. *)
Definition offset_after_shrink (p : ptr) (size : Z) (a : SlabAllocator) : Z :=
  match last_ptr_ a with
  | Some q => if ptr_eqb p q then off p + size else offset_ a
  | None => offset_ a
  end.

Definition last_after_shrink (p : ptr) (a : SlabAllocator) : option ptr :=
  match last_ptr_ a with
  | Some q => if ptr_eqb p q then None else Some q
  | None => None
  end.

(** Modelled from the spec: [SlabAllocator::Shrink], which "produces a
    final view of exactly actualSize bytes starting at the original
    offset".  The consumer gives its region back with the number of bytes
    it keeps and receives the parent buffer; the bytes beyond the final
    view belong to no region any more, and when the region is the one
    carved last they are where the next region is carved.  A consumer that
    holds no region is a failed assertion. *)
Definition slab_Shrink (obj : nat) (p : ptr) (size : Z) (a : SlabAllocator)
  : option (Buffer * SlabAllocator) :=
  match region_of obj (regions a) with
  | None => None
  | Some parent =>
      Some (parent,
            mk_Slab (size_ a) (slab_ a) (offset_after_shrink p size a)
              (drop_region obj (regions a))
              (next_buf a) (last_after_shrink p a)
              (slab_log a ++ [SlabShrink obj p size]))
  end.

(** ** The state of the process *)

Record State : Type := mk_State {
  errno : option uv_err_t;          (* set by [SetErrno] *)
  uv_last : uv_err_t;               (* [uv_last_error(uv_default_loop())] *)
  handles : nat -> uv_udp_t;        (* [wrap->handle_] of each socket *)
  next_req : nat;                   (* the next [SendWrap] to be made *)
  reqs : list (nat * SendWrap);     (* the live [SendWrap]s *)
  uv_queue : list nat;              (* sends libuv has accepted *)
  uv_calls : list UvCall;           (* calls made to libuv *)
  calls : list Callback;            (* callbacks made to JavaScript *)
  slab_allocator : SlabAllocator
}.

Definition set_errno (e : option uv_err_t) (s : State) : State :=
  mk_State e (uv_last s) (handles s) (next_req s) (reqs s) (uv_queue s)
    (uv_calls s) (calls s) (slab_allocator s).

Definition set_uv_last (e : uv_err_t) (s : State) : State :=
  mk_State (errno s) e (handles s) (next_req s) (reqs s) (uv_queue s)
    (uv_calls s) (calls s) (slab_allocator s).

Definition set_handle (h : nat) (u : uv_udp_t) (s : State) : State :=
  mk_State (errno s) (uv_last s)
    (fun k => if Nat.eqb k h then u else handles s k)
    (next_req s) (reqs s) (uv_queue s) (uv_calls s) (calls s)
    (slab_allocator s).

Definition set_next_req (n : nat) (s : State) : State :=
  mk_State (errno s) (uv_last s) (handles s) n (reqs s) (uv_queue s)
    (uv_calls s) (calls s) (slab_allocator s).

Definition set_reqs (l : list (nat * SendWrap)) (s : State) : State :=
  mk_State (errno s) (uv_last s) (handles s) (next_req s) l (uv_queue s)
    (uv_calls s) (calls s) (slab_allocator s).

Definition set_uv_queue (q : list nat) (s : State) : State :=
  mk_State (errno s) (uv_last s) (handles s) (next_req s) (reqs s) q
    (uv_calls s) (calls s) (slab_allocator s).

Definition log_uv (c : UvCall) (s : State) : State :=
  mk_State (errno s) (uv_last s) (handles s) (next_req s) (reqs s)
    (uv_queue s) (uv_calls s ++ [c]) (calls s) (slab_allocator s).

Definition log_call (c : Callback) (s : State) : State :=
  mk_State (errno s) (uv_last s) (handles s) (next_req s) (reqs s)
    (uv_queue s) (uv_calls s) (calls s ++ [c]) (slab_allocator s).

Definition set_slab (a : SlabAllocator) (s : State) : State :=
  mk_State (errno s) (uv_last s) (handles s) (next_req s) (reqs s)
    (uv_queue s) (uv_calls s) (calls s) a.

(** The process after [UDPWrap::Initialize]: no error yet, every socket
    fresh (unbound, not receiving), no request, an empty slab. *)
Definition initial_state : State :=
  mk_State None (mk_uv_err UV_OK 0) (fun _ => mk_uv_udp None false)
    0 [] [] [] [] (new_SlabAllocator SLAB_SIZE).

(** ** The monad: state, and failure for [assert] and [abort()] *)

(** A computation returns a value and the new state, or the process is
    aborted, in the state it had reached. *)
Inductive Res (A : Type) : Type :=
| Ret (a : A)
| Aborted (s : State).

Arguments Ret {A} a.
Arguments Aborted {A} s.

Definition M (A : Type) : Type := State -> Res (A * State).

Definition ret {A : Type} (a : A) : M A := fun s => Ret (a, s).

Definition bind {A B : Type} (m : M A) (k : A -> M B) : M B :=
  fun s => match m s with
           | Ret (a, s') => k a s'
           | Aborted s' => Aborted s'
           end.

Definition abort {A : Type} : M A := fun s => Aborted s.

Definition assert (b : bool) : M unit :=
  fun s => if b then Ret (tt, s) else Aborted s.

Definition gets {A : Type} (f : State -> A) : M A := fun s => Ret (f s, s).

Definition modify (f : State -> State) : M unit := fun s => Ret (tt, f s).

Declare Scope udp_scope.
Delimit Scope udp_scope with udp.

Notation "x <- m ;; k" := (bind m (fun x => k))
  (at level 61, m at next level, right associativity) : udp_scope.
Notation "m ;;; k" := (bind m (fun _ => k))
  (at level 61, right associativity) : udp_scope.

Open Scope udp_scope.

(** ** The table of live send requests *)

Fixpoint find_req (r : nat) (l : list (nat * SendWrap)) : option SendWrap :=
  match l with
  | [] => None
  | (k, w) :: l' => if Nat.eqb k r then Some w else find_req r l'
  end.

Fixpoint remove_req (r : nat) (l : list (nat * SendWrap))
  : list (nat * SendWrap) :=
  match l with
  | [] => []
  | (k, w) :: l' =>
      if Nat.eqb k r then remove_req r l' else (k, w) :: remove_req r l'
  end.

(** The queue without its first occurrence of [r]. *)
Fixpoint remove_queued (r : nat) (q : list nat) : list nat :=
  match q with
  | [] => []
  | x :: q' => if Nat.eqb x r then q' else x :: remove_queued r q'
  end.

(** The request [r] changed by [f]. *)
Definition update_req (r : nat) (f : SendWrap -> SendWrap) : M unit :=
  modify (fun s =>
    set_reqs
      (map (fun e : nat * SendWrap =>
              if Nat.eqb (fst e) r then (fst e, f (snd e)) else e)
           (reqs s)) s).

(** ** libuv *)

Module Uv.

(** [uv_last_error(uv_default_loop())] *)
Definition uv_last_error : M uv_err_t := gets uv_last.

(** The answer of a primitive that either works or fails with an error,
    which becomes the loop's last error: the [int] it returns. *)
Definition answer (os : os_result) : M Z :=
  match os with
  | OsOk => ret 0
  | OsFail e => modify (set_uv_last e) ;;; ret (-1)
  end.

(** Modelled from the spec: [uv_udp_bind] and [uv_udp_bind6] (libuv is not
    under src/).  The address family of a socket is fixed by its first
    successful bind: binding a bound socket with another family is rejected
    as a bind conflict and changes nothing.  Otherwise the operating system
    decides; success records the address, failure leaves the socket as it
    was. *)
Definition uv__bind (os : os_result) (h : nat) (addr : sockaddr) (flags : Z)
  : M Z :=
  modify (log_uv (UvBind h addr flags)) ;;;
  u <- gets (fun s => handles s h) ;;
  match bound u with
  | Some a =>
      if family_eqb (sa_family a) (sa_family addr) then
        match os with
        | OsOk =>
            modify (set_handle h (mk_uv_udp (Some addr) (recv_armed u))) ;;;
            ret 0
        | OsFail e => modify (set_uv_last e) ;;; ret (-1)
        end
      else
        modify (set_uv_last (mk_uv_err UV_EBINDCONFLICT 0)) ;;; ret (-1)
  | None =>
      match os with
      | OsOk =>
          modify (set_handle h (mk_uv_udp (Some addr) (recv_armed u))) ;;;
          ret 0
      | OsFail e => modify (set_uv_last e) ;;; ret (-1)
      end
  end.

Definition uv_udp_bind := uv__bind.

Definition uv_udp_bind6 := uv__bind.

(** Modelled from the spec: the four socket options, "a single OS-level
    setsockopt-style call" each, with no state of their own. *)
Definition uv_udp_set_option (o : sockopt) (os : os_result) (h : nat)
  (flag : Z) : M Z :=
  modify (log_uv (UvSetOpt o h flag)) ;;; answer os.

Definition uv_udp_set_ttl := uv_udp_set_option OptTTL.

Definition uv_udp_set_broadcast := uv_udp_set_option OptBroadcast.

Definition uv_udp_set_multicast_ttl := uv_udp_set_option OptMulticastTTL.

Definition uv_udp_set_multicast_loop := uv_udp_set_option OptMulticastLoop.

(** Modelled from the spec: [uv_udp_set_membership]; the interface address
    is a [const char*] that may be null. *)
Definition uv_udp_set_membership (os : os_result) (h : nat) (maddr : string)
  (iface : option string) (m : uv_membership) : M Z :=
  modify (log_uv (UvSetMembership h maddr iface m)) ;;; answer os.

(** Modelled from the spec: [uv_udp_send] and [uv_udp_send6], "fire and
    forget with completion callback".  libuv fills in [req->handle]; a send
    that starts is queued until its completion is reported, one that cannot
    start fails at once and is not queued. *)
Definition uv__send (os : os_result) (req h : nat) (buf : uv_buf_t)
  (nbufs : Z) (addr : sockaddr) : M Z :=
  modify (log_uv (UvSend req h buf nbufs addr)) ;;;
  update_req req
    (fun w => mk_SendWrap (hidden_buffer w) (Some h) (dispatched w)) ;;;
  match os with
  | OsOk => modify (fun s => set_uv_queue (uv_queue s ++ [req]) s) ;;; ret 0
  | OsFail e => modify (set_uv_last e) ;;; ret (-1)
  end.

Definition uv_udp_send := uv__send.

Definition uv_udp_send6 := uv__send.

(** Modelled from the spec: [uv_udp_recv_start].  Arming an armed socket
    is the "already started" condition, [UV_EALREADY], and changes
    nothing. *)
Definition uv_udp_recv_start (os : os_result) (h : nat) : M Z :=
  modify (log_uv (UvRecvStart h)) ;;;
  u <- gets (fun s => handles s h) ;;
  if recv_armed u then
    modify (set_uv_last (mk_uv_err UV_EALREADY 0)) ;;; ret (-1)
  else
    match os with
    | OsOk => modify (set_handle h (mk_uv_udp (bound u) true)) ;;; ret 0
    | OsFail e => modify (set_uv_last e) ;;; ret (-1)
    end.

(** Modelled from the spec: [uv_udp_recv_stop] disarms the socket. *)
Definition uv_udp_recv_stop (os : os_result) (h : nat) : M Z :=
  modify (log_uv (UvRecvStop h)) ;;;
  u <- gets (fun s => handles s h) ;;
  match os with
  | OsOk => modify (set_handle h (mk_uv_udp (bound u) false)) ;;; ret 0
  | OsFail e => modify (set_uv_last e) ;;; ret (-1)
  end.

(** Modelled from the spec: [uv_udp_getsockname] "fails if the socket is
    not yet bound or the query fails". *)
Definition uv_udp_getsockname (os : os_result) (h : nat)
  : M (Z * option sockaddr) :=
  modify (log_uv (UvGetSockName h)) ;;;
  u <- gets (fun s => handles s h) ;;
  match bound u, os with
  | Some a, OsOk => ret (0, Some a)
  | Some _, OsFail e => modify (set_uv_last e) ;;; ret (-1, None)
  | None, _ =>
      modify (set_uv_last (mk_uv_err UV_EARGUMENT 0)) ;;; ret (-1, None)
  end.

End Uv.

(** ** node: errno, callbacks, request wrappers *)

(** Modelled from the spec: [SetErrno(err)] (node.cc is not under src/)
    sets the process-visible "last error" value. *)
Definition SetErrno (e : uv_err_t) : M unit := modify (set_errno (Some e)).

(** Modelled from the spec: [MakeCallback(target, sym, argc, argv)]
    (node.cc is not under src/) delivers a notification to the application.
    The application's handler is not part of the binding: the notification
    is recorded, with the last error the handler would read. *)
Definition MakeCallback (target : Value) (sym : symbol) (argv : list Value)
  : M unit :=
  modify (fun s => log_call (mk_Callback target sym argv (errno s)) s).

(** Modelled from the spec: [ReqWrap] (req_wrap.h is not under src/).  A
    Send Request is an object of its own, created by [new SendWrap()] and
    gone after [delete req_wrap]. *)
Definition new_SendWrap : M nat :=
  fun s =>
    let r := next_req s in
    Ret (r, set_next_req (S r)
              (set_reqs ((r, mk_SendWrap None None false) :: reqs s) s)).

(** [delete req_wrap] *)
Definition delete_SendWrap (r : nat) : M unit :=
  modify (fun s => set_reqs (remove_req r (reqs s)) s).

(** [req_wrap->object_->SetHiddenValue(buffer_sym, v)] *)
Definition SetHiddenValue_buffer (r : nat) (v : Value) : M unit :=
  update_req r (fun w => mk_SendWrap (Some v) (req_handle w) (dispatched w)).

(** [req_wrap->Dispatched()] *)
Definition Dispatched (r : nat) : M unit :=
  update_req r (fun w => mk_SendWrap (hidden_buffer w) (req_handle w) true).

(** [slab_allocator->Allocate(obj, size)] *)
Definition Allocate (obj : nat) (size : Z) : M ptr :=
  fun s =>
    let (p, a) := slab_Allocate obj size (slab_allocator s) in
    Ret (p, set_slab a s).

(** [slab_allocator->Shrink(obj, ptr, size)] *)
Definition Shrink (obj : nat) (p : ptr) (size : Z) : M Buffer :=
  fun s =>
    match slab_Shrink obj p size (slab_allocator s) with
    | Some (b, a) => Ret (b, set_slab a s)
    | None => Aborted s
    end.

(** ** UDPWrap *)

(** The [UNWRAP] macro comes from a header that is not under src/: the
    methods below take the socket [wrap] their holder wraps.  [args] is
    taken apart into its components; the numbers among them are integral
    JavaScript numbers, the others are [Value]s. *)

Module UDPWrap.

Import Uv.

(** [UDPWrap::DoBind(args, family)], with [args = (address, port, flags)]. *)
Definition DoBind (os : os_result) (wrap : nat) (address : Value)
  (port flags : Z) (fam : family) : M Value :=
  let address := Utf8Value address in
  let port := to_int (Uint32Value port) in
  let flags := to_int (Uint32Value flags) in
  r <- match fam with
       | AF_INET => uv_udp_bind os wrap (uv_ip4_addr address port) flags
       | AF_INET6 => uv_udp_bind6 os wrap (uv_ip6_addr address port) flags
       | AF_other _ => abort
       end ;;
  (if negb (r =? 0) then e <- uv_last_error ;; SetErrno e else ret tt) ;;;
  ret (VInt r).

Definition Bind (os : os_result) (wrap : nat) (address : Value)
  (port flags : Z) : M Value :=
  DoBind os wrap address port flags AF_INET.

Definition Bind6 (os : os_result) (wrap : nat) (address : Value)
  (port flags : Z) : M Value :=
  DoBind os wrap address port flags AF_INET6.

(** The macro [X(name, fn)]. *)
Definition X (fn : os_result -> nat -> Z -> M Z) (os : os_result)
  (wrap : nat) (arg : Z) : M Value :=
  let flag := Int32Value arg in
  r <- fn os wrap flag ;;
  (if negb (r =? 0) then e <- uv_last_error ;; SetErrno e else ret tt) ;;;
  ret (VInt r).

Definition SetTTL := X uv_udp_set_ttl.

Definition SetBroadcast := X uv_udp_set_broadcast.

Definition SetMulticastTTL := X uv_udp_set_multicast_ttl.

Definition SetMulticastLoopback := X uv_udp_set_multicast_loop.

(** [UDPWrap::SetMembership(args, membership)], with
    [args = (address, iface)]. *)
Definition SetMembership (os : os_result) (wrap : nat)
  (address iface : Value) (membership : uv_membership) : M Value :=
  let address_str := Utf8Value address in
  let iface_str := Utf8Value iface in
  let iface_cstr :=
    if IsUndefined iface || IsNull iface then None else Some iface_str in
  r <- uv_udp_set_membership os wrap address_str iface_cstr membership ;;
  (if negb (r =? 0) then e <- uv_last_error ;; SetErrno e else ret tt) ;;;
  ret (VInt r).

Definition AddMembership (os : os_result) (wrap : nat)
  (address iface : Value) : M Value :=
  SetMembership os wrap address iface UV_JOIN_GROUP.

Definition DropMembership (os : os_result) (wrap : nat)
  (address iface : Value) : M Value :=
  SetMembership os wrap address iface UV_LEAVE_GROUP.

(** [UDPWrap::DoSend(args, family)], with
    [args = (buffer, offset, length, port, address)]. *)
Definition DoSend (os : os_result) (wrap : nat) (buffer_obj : Buffer)
  (offset length port : Z) (address : Value) (fam : family) : M Value :=
  let offset := to_size_t (Uint32Value offset) in
  let length := to_size_t (Uint32Value length) in
  assert (offset <? Buffer_Length buffer_obj) ;;;
  assert (length <=? size_sub (Buffer_Length buffer_obj) offset) ;;;
  req_wrap <- new_SendWrap ;;
  SetHiddenValue_buffer req_wrap (VBuffer buffer_obj) ;;;
  let buf := uv_buf_init (ptr_add (Buffer_Data buffer_obj) offset) length in
  let port := to_ushort (Uint32Value port) in
  let address := Utf8Value address in
  r <- match fam with
       | AF_INET =>
           uv_udp_send os req_wrap wrap buf 1 (uv_ip4_addr address port)
       | AF_INET6 =>
           uv_udp_send6 os req_wrap wrap buf 1 (uv_ip6_addr address port)
       | AF_other _ => abort
       end ;;
  Dispatched req_wrap ;;;
  if negb (r =? 0) then
    e <- uv_last_error ;;
    SetErrno e ;;;
    delete_SendWrap req_wrap ;;;
    ret VNull
  else
    ret (VReq req_wrap).

Definition Send (os : os_result) (wrap : nat) (buffer_obj : Buffer)
  (offset length port : Z) (address : Value) : M Value :=
  DoSend os wrap buffer_obj offset length port address AF_INET.

Definition Send6 (os : os_result) (wrap : nat) (buffer_obj : Buffer)
  (offset length port : Z) (address : Value) : M Value :=
  DoSend os wrap buffer_obj offset length port address AF_INET6.

(** [UDPWrap::RecvStart] *)
Definition RecvStart (os : os_result) (wrap : nat) : M Value :=
  r <- uv_udp_recv_start os wrap ;;
  e <- uv_last_error ;;
  if negb (r =? 0) && negb (is_EALREADY (code e)) then
    e' <- uv_last_error ;;
    SetErrno e' ;;;
    ret (VBool false)
  else
    ret (VBool true).

(** [UDPWrap::RecvStop] *)
Definition RecvStop (os : os_result) (wrap : nat) : M Value :=
  r <- uv_udp_recv_stop os wrap ;;
  ret (VInt r).

(** [UDPWrap::GetSockName] *)
Definition GetSockName (os : os_result) (wrap : nat) : M Value :=
  ra <- uv_udp_getsockname os wrap ;;
  let (r, address) := ra in
  if negb (r =? 0) then
    e <- uv_last_error ;;
    SetErrno e ;;;
    ret VNull
  else
    ret (AddressToJS address).

(** [UDPWrap::OnSend(req, status)].  The three assertions are on what
    libuv hands over: [req] is a request, its [data] is a [SendWrap] with
    its object, and [handle] is set to a socket with its object. *)
Definition OnSend (req : nat) (status : Z) : M unit :=
  w <- gets (fun s => find_req req (reqs s)) ;;
  match w with
  | None => abort
  | Some req_wrap =>
      match req_handle req_wrap with
      | None => abort
      | Some wrap =>
          (if negb (status =? 0)
           then e <- uv_last_error ;; SetErrno e
           else ret tt) ;;;
          let argv :=
            [ VInt status;
              VSock wrap;
              VReq req;
              match hidden_buffer req_wrap with
              | Some v => v
              | None => VUndefined
              end ] in
          MakeCallback (VReq req) oncomplete_sym argv ;;;
          delete_SendWrap req
      end
  end.

(** [UDPWrap::OnAlloc(handle, suggested_size)] *)
Definition OnAlloc (handle : nat) (suggested_size : Z) : M uv_buf_t :=
  buf <- Allocate handle (to_uint suggested_size) ;;
  ret (uv_buf_init buf suggested_size).

(** [UDPWrap::OnRecv(handle, nread, buf, addr, flags)] *)
Definition OnRecv (handle : nat) (nread : Z) (buf : uv_buf_t)
  (addr : option sockaddr) (flags : Z) : M unit :=
  slab <- Shrink handle (base buf)
            (to_uint (if nread <? 0 then 0 else nread)) ;;
  if nread =? 0 then ret tt
  else if nread <? 0 then
    let argv := [ VSock handle ] in
    e <- uv_last_error ;;
    SetErrno e ;;;
    MakeCallback (VSock handle) onmessage_sym argv
  else
    match ptr_diff (base buf) (Buffer_Data slab) with
    | None => abort
    | Some d =>
        let argv :=
          [ VSock handle;
            VBuffer slab;
            VInt (to_uint d);
            VInt (to_uint nread);
            AddressToJS addr ] in
        MakeCallback (VSock handle) onmessage_sym argv
    end.

End UDPWrap.

(** ** The event loop *)

Module Loop.

Import UDPWrap.

(** Modelled from the spec: the completion of a send (libuv's loop is not
    under src/).  libuv reports the completions in the order the
    transmissions complete, which need not be the order of the calls to
    [send]: any request it holds may be the next one.  The request leaves
    libuv's queue and its completion callback, [OnSend], runs with status 0,
    or with status -1 after the loop's last error is set.  For a request
    libuv does not hold nothing is reported. *)
Definition complete_send (req : nat) (st : os_result) : M unit :=
  q <- gets uv_queue ;;
  if existsb (Nat.eqb req) q then
    modify (set_uv_queue (remove_queued req q)) ;;;
    match st with
    | OsOk => OnSend req 0
    | OsFail e => modify (set_uv_last e) ;;; OnSend req (-1)
    end
  else ret tt.

(** The loop reporting the completions of [sch], each a request and the
    outcome of its transmission, in that order. *)
Fixpoint run_completions (sch : list (nat * os_result)) : M unit :=
  match sch with
  | [] => ret tt
  | (req, st) :: sch' => complete_send req st ;;; run_completions sch'
  end.

(** Modelled from the spec: one receive event.  The socket asks for a
    buffer of the suggested size through [OnAlloc], the operating system
    fills it, and [OnRecv] is called with the byte count, or with a negative
    count after the loop's last error is set to [e]. *)
Definition recv_event (h : nat) (suggested_size nread : Z)
  (addr : option sockaddr) (flags : Z) (e : uv_err_t) : M unit :=
  buf <- OnAlloc h suggested_size ;;
  (if nread <? 0 then modify (set_uv_last e) else ret tt) ;;;
  OnRecv h nread buf addr flags.

End Loop.

(** ** Reading the traces *)

(** [c] is an [oncomplete] callback on the object of request [r]. *)
Definition is_completion_of (r : nat) (c : Callback) : bool :=
  match cb_sym c, cb_target c with
  | oncomplete_sym, VReq k => Nat.eqb k r
  | _, _ => false
  end.

(** The number of send completions delivered for request [r]. *)
Definition completions (r : nat) (l : list Callback) : nat :=
  List.length (filter (is_completion_of r) l).

(** Request [r] has a live [SendWrap]. *)
Definition live (r : nat) (s : State) : bool :=
  match find_req r (reqs s) with Some _ => true | None => false end.

(** How many times request [r] waits in libuv's queue. *)
Definition queued (r : nat) (s : State) : nat :=
  count_occ Nat.eq_dec (uv_queue s) r.

(** The address families the two entry points of [bind] and [send] use. *)
Definition family_supported (f : family) : bool :=
  match f with
  | AF_INET | AF_INET6 => true
  | AF_other _ => false
  end.

(** The failure results of the methods: a non-zero integer for the methods
    that return libuv's [int], [null] for [send] and [getsockname], [false]
    for [recvStart]. *)
Definition is_failure (v : Value) : bool :=
  match v with
  | VInt r => negb (r =? 0)
  | VNull => true
  | VBool b => negb b
  | _ => false
  end.

(** ** The invariant of the send path *)

(** Request [k] is live and libuv has filled in its [handle]. *)
Definition req_ready (s : State) (k : nat) : bool :=
  match find_req k (reqs s) with
  | Some w => match req_handle w with Some _ => true | None => false end
  | None => false
  end.

Fixpoint nodupb (l : list nat) : bool :=
  match l with
  | [] => true
  | x :: l' => negb (existsb (Nat.eqb x) l') && nodupb l'
  end.

(** If [c] is the completion of a request, the request was made before
    [n]. *)
Definition completion_below (n : nat) (c : Callback) : bool :=
  match cb_sym c, cb_target c with
  | oncomplete_sym, VReq k => Nat.ltb k n
  | _, _ => true
  end.

(** Every live request was made before [next_req]; every queued request is
    live and has its [handle] filled in; no request is queued twice; every
    completion delivered so far is for a request made before [next_req]. *)
Definition wfb (s : State) : bool :=
  forallb (fun e : nat * SendWrap => Nat.ltb (fst e) (next_req s)) (reqs s)
  && forallb (req_ready s) (uv_queue s)
  && nodupb (uv_queue s)
  && forallb (completion_below (next_req s)) (calls s).

Definition wf (s : State) : Prop := wfb s = true.

(** ** What a send leaves behind *)

(** The two assertions of [DoSend], as a condition on the converted
    arguments. *)
Definition send_guard (b : Buffer) (offset length : Z) : bool :=
  (to_size_t (Uint32Value offset) <? Buffer_Length b)
  && (to_size_t (Uint32Value length)
      <=? size_sub (Buffer_Length b) (to_size_t (Uint32Value offset))).

(** No live request is numbered [r]. *)
Definition fresh_in (r : nat) (l : list (nat * SendWrap)) : Prop :=
  forall e, In e l -> fst e <> r.

(** The invariant [wf], as propositions. *)
Record wf_props (s : State) : Prop := mk_wf_props {
  wf_reqs_below : forall e, In e (reqs s) -> (fst e < next_req s)%nat;
  wf_queue_ready : forall k, In k (uv_queue s) -> req_ready s k = true;
  wf_queue_nodup : NoDup (uv_queue s);
  wf_calls_below :
    forall c, In c (calls s) -> completion_below (next_req s) c = true
}.

(** The wire address [DoSend] resolves. *)
Definition send_addr (fam : family) (address : Value) (port : Z) : sockaddr :=
  match fam with
  | AF_INET6 => uv_ip6_addr (Utf8Value address) (to_ushort (Uint32Value port))
  | _ => uv_ip4_addr (Utf8Value address) (to_ushort (Uint32Value port))
  end.

(** The [uv_buf_t] [DoSend] hands to libuv. *)
Definition send_buf (b : Buffer) (offset length : Z) : uv_buf_t :=
  uv_buf_init (ptr_add (Buffer_Data b) (to_size_t (Uint32Value offset)))
    (to_size_t (Uint32Value length)).

(** The state after a send that libuv accepted. *)
Definition sent_state (wrap : nat) (b : Buffer) (offset length port : Z)
  (address : Value) (fam : family) (s : State) : State :=
  mk_State (errno s) (uv_last s) (handles s) (S (next_req s))
    ((next_req s, mk_SendWrap (Some (VBuffer b)) (Some wrap) true) :: reqs s)
    (uv_queue s ++ [next_req s])
    (uv_calls s ++
     [UvSend (next_req s) wrap (send_buf b offset length) 1
        (send_addr fam address port)])
    (calls s) (slab_allocator s).

(** The state after a send that libuv refused with error [e]. *)
Definition refused_state (e : uv_err_t) (wrap : nat) (b : Buffer)
  (offset length port : Z) (address : Value) (fam : family) (s : State)
  : State :=
  mk_State (Some e) e (handles s) (S (next_req s)) (reqs s) (uv_queue s)
    (uv_calls s ++
     [UvSend (next_req s) wrap (send_buf b offset length) 1
        (send_addr fam address port)])
    (calls s) (slab_allocator s).

(** The errno a completion with status [status] leaves, and shows to the
    callback. *)
Definition errno_at_completion (status : Z) (s : State) : option uv_err_t :=
  if status =? 0 then errno s else Some (uv_last s).

(** The callback [OnSend] makes. *)
Definition completion_of (req : nat) (status : Z) (wrap : nat) (payload : Value)
  (e : option uv_err_t) : Callback :=
  mk_Callback (VReq req) oncomplete_sym
    [VInt status; VSock wrap; VReq req; payload] e.

(** What is conserved: a request is either waiting in libuv's queue or has
    had its completion delivered. *)
Definition account (r : nat) (s : State) : nat :=
  (completions r (calls s) + queued r s)%nat.

(** The requests of the queue are live, with their handle, and distinct. *)
Definition queue_ok (s : State) : Prop :=
  (forall k, In k (uv_queue s) -> req_ready s k = true) /\ NoDup (uv_queue s).

(** Request [r], as long as it lives, belongs to socket [wrap] and holds
    [payload]; its completions so far carry exactly status, socket, request
    and [payload], with the errno set when the status is not 0. *)
Definition carries (r wrap : nat) (payload : Value) (s : State) : Prop :=
  (forall w, find_req r (reqs s) = Some w ->
             req_handle w = Some wrap /\ hidden_buffer w = Some payload) /\
  (forall c, In c (calls s) -> is_completion_of r c = true ->
             exists status,
               cb_argv c = [VInt status; VSock wrap; VReq r; payload] /\
               (status <> 0 -> cb_errno c <> None)).

(** The status [OnSend] is called with. *)
Definition status_of (st : os_result) : Z :=
  match st with OsOk => 0 | OsFail _ => -1 end.

(** The state in which [OnSend] runs when libuv reports the completion of
    [req]: the request has left the queue, and a failure is libuv's last
    error. *)
Definition completing_state (req : nat) (st : os_result) (s : State) : State :=
  match st with
  | OsOk => set_uv_queue (remove_queued req (uv_queue s)) s
  | OsFail e => set_uv_last e (set_uv_queue (remove_queued req (uv_queue s)) s)
  end.

(** The state after the completion of the queued request [req], whose
    [SendWrap] is [w], on socket [wrap]. *)
Definition completed_state (req : nat) (st : os_result) (w : SendWrap)
  (wrap : nat) (s : State) : State :=
  set_reqs (remove_req req (reqs s))
    (log_call
       (completion_of req (status_of st) wrap
          (match hidden_buffer w with
           | Some v => v
           | None => VUndefined
           end)
          (errno_at_completion (status_of st) (completing_state req st s)))
       (set_errno
          (errno_at_completion (status_of st) (completing_state req st s))
          (completing_state req st s))).

(** The write offset of the slab lies within its capacity, every offset
    into the slab fits the unsigned 32-bit number [OnRecv] reports, the
    standalone buffers still to be made are not the slab, and the region
    carved last lies in the slab. *)
Definition slab_ok (a : SlabAllocator) : bool :=
  (0 <=? offset_ a) && (offset_ a <=? size_ a) && (size_ a <? 2 ^ 32)
  && Nat.ltb (buf_id (slab_ a)) (next_buf a)
  && match last_ptr_ a with
     | Some q => Nat.eqb (blk q) (buf_id (slab_ a))
     | None => true
     end.

(** The send side of the state: what [wf] reads. *)
Definition same_sends (s s' : State) : Prop :=
  next_req s' = next_req s /\ reqs s' = reqs s /\
  uv_queue s' = uv_queue s /\ calls s' = calls s.

(** ** The states a process reaches *)

(** One step of the process: a method called by the application, the
    completion of any send libuv holds, or a receive event, which reads no
    more than the buffer it was given holds. *)
Inductive step (s s' : State) : Prop :=
| step_bind os h address port flags fam v :
    UDPWrap.DoBind os h address port flags fam s = Ret (v, s') -> step s s'
| step_option o os h arg v :
    UDPWrap.X (Uv.uv_udp_set_option o) os h arg s = Ret (v, s') -> step s s'
| step_membership os h address iface m v :
    UDPWrap.SetMembership os h address iface m s = Ret (v, s') -> step s s'
| step_send os h b offset length port address fam v :
    UDPWrap.DoSend os h b offset length port address fam s = Ret (v, s') ->
    step s s'
| step_recv_start os h v :
    UDPWrap.RecvStart os h s = Ret (v, s') -> step s s'
| step_recv_stop os h v :
    UDPWrap.RecvStop os h s = Ret (v, s') -> step s s'
| step_getsockname os h v :
    UDPWrap.GetSockName os h s = Ret (v, s') -> step s s'
| step_completion req st :
    Loop.complete_send req st s = Ret (tt, s') -> step s s'
| step_receive h size nread addr flags e :
    nread <= to_uint size ->
    Loop.recv_event h size nread addr flags e s = Ret (tt, s') -> step s s'.

Inductive reachable : State -> Prop :=
| reach_initial : reachable initial_state
| reach_step s s' : reachable s -> step s s' -> reachable s'.

(** The states that follow a state, after any number of steps in any
    order. *)
Inductive steps (s : State) : State -> Prop :=
| steps_refl : steps s s
| steps_next t u : steps s t -> step t u -> steps s u.

(** ** The prototype methods *)

(** The methods [UDPWrap::Initialize] installs on the prototype of [UDP]
    with [NODE_SET_PROTOTYPE_METHOD], each with its arguments.  ([close] is
    [HandleWrap::Close], which is not under src/.) *)
Inductive Method : Type :=
| m_bind (address : Value) (port flags : Z)
| m_send (buffer_obj : Buffer) (offset length port : Z) (address : Value)
| m_bind6 (address : Value) (port flags : Z)
| m_send6 (buffer_obj : Buffer) (offset length port : Z) (address : Value)
| m_recvStart
| m_recvStop
| m_getsockname
| m_addMembership (address iface : Value)
| m_dropMembership (address iface : Value)
| m_setMulticastTTL (arg : Z)
| m_setMulticastLoopback (arg : Z)
| m_setBroadcast (arg : Z)
| m_setTTL (arg : Z).

(** The C++ function each method name is bound to, called on the socket
    [wrap]. *)
Definition invoke (os : os_result) (wrap : nat) (m : Method) : M Value :=
  match m with
  | m_bind address port flags => UDPWrap.Bind os wrap address port flags
  | m_send b offset length port address =>
      UDPWrap.Send os wrap b offset length port address
  | m_bind6 address port flags => UDPWrap.Bind6 os wrap address port flags
  | m_send6 b offset length port address =>
      UDPWrap.Send6 os wrap b offset length port address
  | m_recvStart => UDPWrap.RecvStart os wrap
  | m_recvStop => UDPWrap.RecvStop os wrap
  | m_getsockname => UDPWrap.GetSockName os wrap
  | m_addMembership address iface =>
      UDPWrap.AddMembership os wrap address iface
  | m_dropMembership address iface =>
      UDPWrap.DropMembership os wrap address iface
  | m_setMulticastTTL arg => UDPWrap.SetMulticastTTL os wrap arg
  | m_setMulticastLoopback arg => UDPWrap.SetMulticastLoopback os wrap arg
  | m_setBroadcast arg => UDPWrap.SetBroadcast os wrap arg
  | m_setTTL arg => UDPWrap.SetTTL os wrap arg
  end.

Definition is_recvStop (m : Method) : bool :=
  match m with m_recvStop => true | _ => false end.

(** The handle a call to libuv is made on. *)
Definition uv_call_handle (c : UvCall) : nat :=
  match c with
  | UvBind h _ _ => h
  | UvSetOpt _ h _ => h
  | UvSetMembership h _ _ _ => h
  | UvSend _ h _ _ _ => h
  | UvRecvStart h => h
  | UvRecvStop h => h
  | UvGetSockName h => h
  end.

(** ** The methods on their arguments *)

(** The names [UDPWrap::Initialize] binds, [close] apart. *)
Inductive MethodName : Type :=
| n_bind
| n_send
| n_bind6
| n_send6
| n_recvStart
| n_recvStop
| n_getsockname
| n_addMembership
| n_dropMembership
| n_setMulticastTTL
| n_setMulticastLoopback
| n_setBroadcast
| n_setTTL.

(** [Buffer::HasInstance(v)] *)
Definition HasInstance (v : Value) : bool :=
  match v with VBuffer _ => true | _ => false end.

(** [args[i]], which is [undefined] beyond the arguments passed. *)
Definition arg (args : list Value) (i : nat) : Value := nth i args VUndefined.

Section MethodArguments.

(** V8's conversion of a value to a number, taken at its integral part: the
    number [Uint32Value] and [Int32Value] reduce modulo 2^32.  The
    conversion is V8's, not the binding's, and never aborts. *)
Variable ToInteger : Value -> Z.

(** [DoBind] from [assert(args.Length() == 3)] on. *)
Definition DoBind_args (os : os_result) (wrap : nat) (args : list Value)
  (fam : family) : M Value :=
  assert (Nat.eqb (List.length args) 3) ;;;
  UDPWrap.DoBind os wrap (arg args 0) (ToInteger (arg args 1))
    (ToInteger (arg args 2)) fam.

(** The macro [X] from [assert(args.Length() == 1)] on. *)
Definition X_args (fn : os_result -> nat -> Z -> M Z) (os : os_result)
  (wrap : nat) (args : list Value) : M Value :=
  assert (Nat.eqb (List.length args) 1) ;;;
  UDPWrap.X fn os wrap (ToInteger (arg args 0)).

(** [SetMembership] from [assert(args.Length() == 2)] on. *)
Definition SetMembership_args (os : os_result) (wrap : nat)
  (args : list Value) (membership : uv_membership) : M Value :=
  assert (Nat.eqb (List.length args) 2) ;;;
  UDPWrap.SetMembership os wrap (arg args 0) (arg args 1) membership.

(** [DoSend] from [assert(args.Length() == 5)] and
    [assert(Buffer::HasInstance(args[0]))] on. *)
Definition DoSend_args (os : os_result) (wrap : nat) (args : list Value)
  (fam : family) : M Value :=
  assert (Nat.eqb (List.length args) 5) ;;;
  assert (HasInstance (arg args 0)) ;;;
  match arg args 0 with
  | VBuffer buffer_obj =>
      UDPWrap.DoSend os wrap buffer_obj (ToInteger (arg args 1))
        (ToInteger (arg args 2)) (ToInteger (arg args 3)) (arg args 4) fam
  | _ => abort
  end.

(** A method called by its name on the socket [wrap] with the arguments
    [args].  [RecvStart], [RecvStop] and [GetSockName] do not look at
    their arguments. *)
Definition call (os : os_result) (wrap : nat) (name : MethodName)
  (args : list Value) : M Value :=
  match name with
  | n_bind => DoBind_args os wrap args AF_INET
  | n_send => DoSend_args os wrap args AF_INET
  | n_bind6 => DoBind_args os wrap args AF_INET6
  | n_send6 => DoSend_args os wrap args AF_INET6
  | n_recvStart => UDPWrap.RecvStart os wrap
  | n_recvStop => UDPWrap.RecvStop os wrap
  | n_getsockname => UDPWrap.GetSockName os wrap
  | n_addMembership => SetMembership_args os wrap args UV_JOIN_GROUP
  | n_dropMembership => SetMembership_args os wrap args UV_LEAVE_GROUP
  | n_setMulticastTTL => X_args Uv.uv_udp_set_multicast_ttl os wrap args
  | n_setMulticastLoopback => X_args Uv.uv_udp_set_multicast_loop os wrap args
  | n_setBroadcast => X_args Uv.uv_udp_set_broadcast os wrap args
  | n_setTTL => X_args Uv.uv_udp_set_ttl os wrap args
  end.

(** The assertions a call has to pass: the number of arguments, and for
    [send] and [send6] a [Buffer] as first argument and the bounds on the
    converted offset and length. *)
Definition asserted (name : MethodName) (args : list Value) : bool :=
  match name with
  | n_bind | n_bind6 => Nat.eqb (List.length args) 3
  | n_send | n_send6 =>
      Nat.eqb (List.length args) 5
      && match arg args 0 with
         | VBuffer buffer_obj =>
             send_guard buffer_obj (ToInteger (arg args 1))
               (ToInteger (arg args 2))
         | _ => false
         end
  | n_recvStart | n_recvStop | n_getsockname => true
  | n_addMembership | n_dropMembership => Nat.eqb (List.length args) 2
  | n_setMulticastTTL | n_setMulticastLoopback | n_setBroadcast | n_setTTL =>
      Nat.eqb (List.length args) 1
  end.

End MethodArguments.

(** Every live request waits in libuv's queue. *)
Definition no_orphan (s : State) : Prop :=
  forall e, In e (reqs s) -> In (fst e) (uv_queue s).

(** One receive event, as the loop reports it: the socket, the suggested
    size, what the read returned, the peer, the flags and, for a failed
    read, the error. *)
Record RecvEvent : Type := mk_RecvEvent {
  ev_handle : nat;
  ev_size : Z;
  ev_nread : Z;
  ev_addr : option sockaddr;
  ev_flags : Z;
  ev_err : uv_err_t
}.

(** The loop reporting the receive events of [l], in order. *)
Fixpoint recv_events (l : list RecvEvent) : M unit :=
  match l with
  | [] => ret tt
  | ev :: l' =>
      Loop.recv_event (ev_handle ev) (ev_size ev) (ev_nread ev) (ev_addr ev)
        (ev_flags ev) (ev_err ev) ;;;
      recv_events l'
  end.

(** The channel and the target of a callback. *)
Definition cb_channel (c : Callback) : symbol * Value :=
  (cb_sym c, cb_target c).

(** * Properties *)

Ltac unfold_monad :=
  unfold bind, ret, modify, gets, assert, abort, SetErrno, MakeCallback,
    Uv.uv_last_error, Uv.answer in *.

Ltac unfold_uv :=
  unfold Uv.uv_udp_bind, Uv.uv_udp_bind6, Uv.uv__bind,
    Uv.uv_udp_set_ttl, Uv.uv_udp_set_broadcast, Uv.uv_udp_set_multicast_ttl,
    Uv.uv_udp_set_multicast_loop, Uv.uv_udp_set_option,
    Uv.uv_udp_set_membership, Uv.uv_udp_send, Uv.uv_udp_send6, Uv.uv__send,
    Uv.uv_udp_recv_start, Uv.uv_udp_recv_stop, Uv.uv_udp_getsockname in *.

(** ** Multicast membership *)

Section Membership.

Import UDPWrap.

Variables (os : os_result) (wrap : nat) (address iface : Value).
Variable membership : uv_membership.

(** The one call [SetMembership] makes to libuv. *)
Lemma SetMembership_call (s : State) :
  exists v s',
    SetMembership os wrap address iface membership s = Ret (v, s') /\
    uv_calls s' =
      uv_calls s ++
      [UvSetMembership wrap (Utf8Value address)
         (if IsUndefined iface || IsNull iface
          then None else Some (Utf8Value iface))
         membership].
Proof.
  unfold SetMembership; unfold_uv; unfold_monad.
  destruct os as [|e]; simpl; eauto.
Qed.

End Membership.

(** C9.  [addMembership] and [dropMembership] hand an absent interface
    address ([undefined] or [null]) to [uv_udp_set_membership] as the null
    pointer, which is not the empty string, and a string as that string. *)
Theorem membership_interface_optional :
  forall os wrap address iface membership s,
  exists v s' passed,
    UDPWrap.SetMembership os wrap address iface membership s = Ret (v, s') /\
    uv_calls s' =
      uv_calls s ++
      [UvSetMembership wrap (Utf8Value address) passed membership] /\
    (iface = VUndefined \/ iface = VNull ->
     passed = None /\ passed <> Some EmptyString) /\
    (forall str, iface = VStr str -> passed = Some str).
Proof.
  intros os wrap address iface membership s.
  destruct (SetMembership_call os wrap address iface membership s)
    as (v & s' & Hrun & Hcalls).
  exists v, s'.
  eexists; split; [exact Hrun|]; split; [exact Hcalls|]; split.
  - intros [-> | ->]; simpl; (split; [reflexivity | discriminate]).
  - intros str ->; reflexivity.
Qed.

Lemma membership_interface_optional_witness :
  exists v s',
    UDPWrap.AddMembership OsOk 2 (VStr "224.0.0.251") VUndefined initial_state
      = Ret (v, s') /\
    uv_calls s' = [UvSetMembership 2 "224.0.0.251" None UV_JOIN_GROUP].
Proof.
  destruct (membership_interface_optional OsOk 2 (VStr "224.0.0.251")
              VUndefined UV_JOIN_GROUP initial_state)
    as (v & s' & passed & Hrun & Hcalls & Habsent & _).
  destruct (Habsent (or_introl eq_refl)) as [Hnone _].
  exists v, s'. split; [exact Hrun|].
  rewrite Hcalls, Hnone. reflexivity.
Defined.

(** ** Arming the receiver *)

Section RecvStart.

Import UDPWrap.

Lemma RecvStart_armed (os : os_result) (h : nat) (s : State) :
  recv_armed (handles s h) = true ->
  RecvStart os h s =
    Ret (VBool true,
         set_uv_last (mk_uv_err UV_EALREADY 0) (log_uv (UvRecvStart h) s)).
Proof.
  intros Harmed.
  unfold RecvStart; unfold_uv; unfold_monad; simpl.
  rewrite Harmed; reflexivity.
Qed.

Lemma RecvStart_accepted (h : nat) (s : State) :
  recv_armed (handles s h) = false ->
  RecvStart OsOk h s =
    Ret (VBool true,
         set_handle h (mk_uv_udp (bound (handles s h)) true)
           (log_uv (UvRecvStart h) s)).
Proof.
  intros Harmed.
  unfold RecvStart; unfold_uv; unfold_monad; simpl.
  rewrite Harmed; reflexivity.
Qed.

(** A call on an armed socket, or one the operating system accepts,
    reports success and leaves the socket armed. *)
Lemma RecvStart_arms (os : os_result) (h : nat) (s : State)
  (v : Value) (s1 : State) :
  os = OsOk \/ recv_armed (handles s h) = true ->
  RecvStart os h s = Ret (v, s1) ->
  v = VBool true /\ recv_armed (handles s1 h) = true.
Proof.
  intros Hcase Hrun.
  destruct (recv_armed (handles s h)) eqn:Harmed.
  - rewrite (RecvStart_armed os h s Harmed) in Hrun.
    injection Hrun as <- <-. split; [reflexivity | exact Harmed].
  - destruct Hcase as [-> | Habs]; [|discriminate].
    rewrite (RecvStart_accepted h s Harmed) in Hrun.
    injection Hrun as <- <-. split; [reflexivity|].
    simpl. rewrite Nat.eqb_refl. reflexivity.
Qed.

End RecvStart.

(** C8.  [recvStart] is idempotent.  A call that the operating system
    accepts, or that finds the socket armed already, reports success and
    leaves the socket armed; calling [recvStart] again then reports success
    again and changes neither the sockets, nor the last error, nor the
    requests, nor what was delivered to JavaScript: the "already started"
    answer of libuv, which stays in libuv's own last error, is not an
    error. *)
Theorem recvStart_idempotent :
  forall os1 os2 h s v1 s1,
    UDPWrap.RecvStart os1 h s = Ret (v1, s1) ->
    os1 = OsOk \/ recv_armed (handles s h) = true ->
    v1 = VBool true /\
    recv_armed (handles s1 h) = true /\
    exists s2,
      UDPWrap.RecvStart os2 h s1 = Ret (VBool true, s2) /\
      handles s2 = handles s1 /\
      errno s2 = errno s1 /\
      calls s2 = calls s1 /\
      reqs s2 = reqs s1 /\
      uv_queue s2 = uv_queue s1 /\
      slab_allocator s2 = slab_allocator s1 /\
      uv_last s2 = mk_uv_err UV_EALREADY 0.
Proof.
  intros os1 os2 h s v1 s1 Hfirst Hcase.
  destruct (RecvStart_arms os1 h s v1 s1 Hcase Hfirst) as [Hv Harmed].
  split; [exact Hv|]. split; [exact Harmed|].
  rewrite (RecvStart_armed os2 h s1 Harmed).
  eexists; split; [reflexivity|]; simpl; repeat split.
Qed.

Lemma recvStart_idempotent_witness :
  UDPWrap.RecvStart OsOk 2 initial_state =
    Ret (VBool true,
         set_handle 2 (mk_uv_udp None true)
           (log_uv (UvRecvStart 2) initial_state)) /\
  exists s2,
    UDPWrap.RecvStart OsOk 2
      (set_handle 2 (mk_uv_udp None true)
         (log_uv (UvRecvStart 2) initial_state)) = Ret (VBool true, s2) /\
    errno s2 = None.
Proof.
  split; [reflexivity|].
  destruct (recvStart_idempotent OsOk OsOk 2 initial_state (VBool true)
              (set_handle 2 (mk_uv_udp None true)
                 (log_uv (UvRecvStart 2) initial_state))
              eq_refl (or_introl eq_refl))
    as (_ & _ & s2 & Hrun & _ & Herrno & _).
  exists s2; split; [exact Hrun | exact Herrno].
Defined.

(** ** Binding *)

Section Bind.

Import UDPWrap.

(** A bind that reports success leaves the socket bound to an address of
    the family it was called with. *)
Lemma DoBind_success_binds (os : os_result) (h : nat) (address : Value)
  (port flags : Z) (fam : family) (s s1 : State) :
  DoBind os h address port flags fam s = Ret (VInt 0, s1) ->
  exists a, bound (handles s1 h) = Some a /\ sa_family a = fam.
Proof.
  unfold DoBind; unfold_uv; unfold_monad.
  destruct fam as [| |n]; simpl; try discriminate;
    destruct (bound (handles s h)) as [a|]; simpl;
    try destruct (family_eqb (sa_family a) _); simpl;
    destruct os as [|e]; simpl; try discriminate;
    intros [= <-]; simpl; rewrite Nat.eqb_refl; simpl; eauto.
Qed.

(** Binding a socket bound to another family. *)
Lemma DoBind_conflict (os : os_result) (h : nat) (address : Value)
  (port flags : Z) (fam : family) (s : State) (a : sockaddr) :
  family_supported fam = true ->
  bound (handles s h) = Some a ->
  family_eqb (sa_family a) fam = false ->
  exists s',
    DoBind os h address port flags fam s = Ret (VInt (-1), s') /\
    errno s' = Some (mk_uv_err UV_EBINDCONFLICT 0) /\
    handles s' = handles s.
Proof.
  intros Hfam Hbound Hneq.
  unfold DoBind; unfold_uv; unfold_monad.
  destruct fam as [| |n]; simpl in *; try discriminate;
    rewrite Hbound; simpl; rewrite Hneq; simpl;
    eexists; repeat split.
Qed.

End Bind.

(** C2.  Once a bind to family A has succeeded, a bind of the same socket
    to another family B fails: it returns -1 with the bind-conflict error as
    the last error, and the socket stays bound to the address of family A it
    had. *)
Theorem bind_family_immutable :
  forall os1 os2 h address1 port1 flags1 address2 port2 flags2 famA famB s s1,
    UDPWrap.DoBind os1 h address1 port1 flags1 famA s = Ret (VInt 0, s1) ->
    family_supported famB = true ->
    family_eqb famA famB = false ->
    exists a s2,
      bound (handles s1 h) = Some a /\ sa_family a = famA /\
      UDPWrap.DoBind os2 h address2 port2 flags2 famB s1 =
        Ret (VInt (-1), s2) /\
      code (uv_last s2) = UV_EBINDCONFLICT /\
      errno s2 = Some (uv_last s2) /\
      handles s2 = handles s1 /\
      bound (handles s2 h) = Some a.
Proof.
  intros os1 os2 h address1 port1 flags1 address2 port2 flags2 famA famB
    s s1 Hfirst HB Hneq.
  destruct (DoBind_success_binds _ _ _ _ _ _ _ _ Hfirst) as (a & Ha & HfamA).
  assert (Hneq' : family_eqb (sa_family a) famB = false)
    by (rewrite HfamA; exact Hneq).
  destruct (DoBind_conflict os2 h address2 port2 flags2 famB s1 a HB Ha Hneq')
    as (s2 & Hrun & Herrno & Hhandles).
  exists a, s2.
  assert (Hlast : uv_last s2 = mk_uv_err UV_EBINDCONFLICT 0).
  { revert Hrun. unfold UDPWrap.DoBind; unfold_uv; unfold_monad.
    destruct famB as [| |n]; simpl in *; try discriminate;
      rewrite Ha; simpl; rewrite Hneq'; simpl;
      intros [= <-]; reflexivity. }
  repeat split; try assumption.
  - rewrite Hlast; reflexivity.
  - rewrite Hlast; exact Herrno.
  - rewrite Hhandles; exact Ha.
Qed.

Lemma bind_family_immutable_witness :
  exists a s2,
    bound (handles
             (set_handle 1 (mk_uv_udp (Some (uv_ip4_addr "127.0.0.1" 0)) false)
                (log_uv (UvBind 1 (uv_ip4_addr "127.0.0.1" 0) 0)
                   initial_state)) 1) = Some a /\
    sa_family a = AF_INET /\
    UDPWrap.Bind6 OsOk 1 (VStr "::1") 0 0
      (set_handle 1 (mk_uv_udp (Some (uv_ip4_addr "127.0.0.1" 0)) false)
         (log_uv (UvBind 1 (uv_ip4_addr "127.0.0.1" 0) 0) initial_state)) =
      Ret (VInt (-1), s2) /\
    bound (handles s2 1) = Some a.
Proof.
  destruct (bind_family_immutable OsOk OsOk 1 (VStr "127.0.0.1") 0 0
              (VStr "::1") 0 0 AF_INET AF_INET6 initial_state
              (set_handle 1
                 (mk_uv_udp (Some (uv_ip4_addr "127.0.0.1" 0)) false)
                 (log_uv (UvBind 1 (uv_ip4_addr "127.0.0.1" 0) 0)
                    initial_state))
              eq_refl eq_refl eq_refl)
    as (a & s2 & Ha & Hfam & Hrun & _ & _ & _ & Hkept).
  exists a, s2; repeat split; assumption.
Defined.

(** ** The last error *)

Section Errno.

Import UDPWrap.

Ltac run_op :=
  unfold DoBind, X, SetMembership, DoSend, RecvStart, GetSockName;
  unfold_uv; unfold_monad; simpl.

(** [bind] and [bind6]: a failure result comes with the last error set to
    libuv's last error. *)
Lemma DoBind_failure_sets_errno os h address port flags fam s v s' :
  DoBind os h address port flags fam s = Ret (v, s') ->
  is_failure v = true ->
  errno s' = Some (uv_last s').
Proof.
  run_op.
  destruct fam as [| |n]; simpl; try discriminate;
    destruct (bound (handles s h)) as [a|]; simpl;
    try destruct (family_eqb (sa_family a) _); simpl;
    destruct os as [|e]; simpl; intros [= <- <-]; simpl;
    (discriminate || reflexivity).
Qed.

(** [setTTL], [setBroadcast], [setMulticastTTL], [setMulticastLoopback]. *)
Lemma X_failure_sets_errno o os h arg s v s' :
  X (Uv.uv_udp_set_option o) os h arg s = Ret (v, s') ->
  is_failure v = true ->
  errno s' = Some (uv_last s').
Proof.
  run_op.
  destruct os as [|e]; simpl; intros [= <- <-]; simpl;
    (discriminate || reflexivity).
Qed.

(** [addMembership] and [dropMembership]. *)
Lemma SetMembership_failure_sets_errno os h address iface m s v s' :
  SetMembership os h address iface m s = Ret (v, s') ->
  is_failure v = true ->
  errno s' = Some (uv_last s').
Proof.
  run_op.
  destruct os as [|e]; simpl; intros [= <- <-]; simpl;
    (discriminate || reflexivity).
Qed.

(** [recvStart]. *)
Lemma RecvStart_failure_sets_errno os h s v s' :
  RecvStart os h s = Ret (v, s') ->
  is_failure v = true ->
  errno s' = Some (uv_last s').
Proof.
  run_op.
  destruct (recv_armed (handles s h)); simpl.
  - intros [= <- <-]; simpl; discriminate.
  - destruct os as [|e]; simpl.
    + intros [= <- <-]; simpl; discriminate.
    + destruct (is_EALREADY (code e)); simpl; intros [= <- <-]; simpl;
        (discriminate || reflexivity).
Qed.

(** [getsockname]. *)
Lemma GetSockName_failure_sets_errno os h s v s' :
  GetSockName os h s = Ret (v, s') ->
  is_failure v = true ->
  errno s' = Some (uv_last s').
Proof.
  run_op.
  destruct (bound (handles s h)) as [a|]; simpl;
    destruct os as [|e]; simpl; intros [= <- <-]; simpl;
    (discriminate || reflexivity).
Qed.

(** [send] and [send6]. *)
Lemma DoSend_failure_sets_errno os h b offset length port address fam s v s' :
  DoSend os h b offset length port address fam s = Ret (v, s') ->
  is_failure v = true ->
  errno s' = Some (uv_last s').
Proof.
  run_op.
  destruct (_ <? _); simpl; try discriminate.
  destruct (_ <=? _); simpl; try discriminate.
  unfold new_SendWrap, SetHiddenValue_buffer, Dispatched, delete_SendWrap,
    update_req; unfold_monad; simpl.
  destruct fam as [| |n]; simpl; try discriminate;
    destruct os as [|e]; simpl; intros [= <- <-]; simpl;
    (discriminate || reflexivity).
Qed.

End Errno.

(** C4, at the input where it fails.  When [uv_udp_recv_stop] fails,
    [recvStop] returns the failure result -1 and the last error is not set:
    it is what it was before the call, while libuv's last error holds the
    failure. *)
Theorem RecvStop_failure_keeps_errno :
  forall e h s,
  exists s',
    UDPWrap.RecvStop (OsFail e) h s = Ret (VInt (-1), s') /\
    is_failure (VInt (-1)) = true /\
    errno s' = errno s /\
    uv_last s' = e.
Proof.
  intros e h s.
  unfold UDPWrap.RecvStop; unfold_uv; unfold_monad; simpl.
  eexists; repeat split.
Qed.

(** On a process that has had no error yet, a failed [recvStop] leaves the
    last error unset. *)
Example RecvStop_failure_at_start :
  exists s',
    UDPWrap.RecvStop (OsFail (mk_uv_err (UV_EIO 9) 9)) 0 initial_state
      = Ret (VInt (-1), s') /\
    errno s' = None.
Proof. eexists; split; reflexivity. Qed.

(** ** Sending *)

Section SendGuards.

Lemma Uint32Value_small (z : Z) : 0 <= z < 2 ^ 32 -> Uint32Value z = z.
Proof. intros H; unfold Uint32Value; apply Z.mod_small; exact H. Qed.

Lemma Uint32Value_range (z : Z) : 0 <= Uint32Value z < 2 ^ 32.
Proof. unfold Uint32Value; apply Z.mod_pos_bound; lia. Qed.

Lemma Uint32Value_le (z : Z) : 0 <= z -> Uint32Value z <= z.
Proof. intros H; unfold Uint32Value; apply Z.mod_le; lia. Qed.

Lemma to_size_t_uint32 (z : Z) : to_size_t (Uint32Value z) = Uint32Value z.
Proof.
  unfold to_size_t, SIZE_BITS; apply Z.mod_small.
  pose proof (Uint32Value_range z); lia.
Qed.

Lemma send_guard_valid (b : Buffer) (offset length : Z) :
  0 <= offset -> 0 <= length ->
  offset < buf_length b ->
  offset + length <= buf_length b ->
  buf_length b < 2 ^ SIZE_BITS ->
  send_guard b offset length = true.
Proof.
  intros Ho Hl Hlt Hsum Hsize.
  unfold send_guard, Buffer_Length, size_sub.
  rewrite !to_size_t_uint32.
  pose proof (Uint32Value_le offset Ho).
  pose proof (Uint32Value_le length Hl).
  pose proof (Uint32Value_range offset).
  pose proof (Uint32Value_range length).
  rewrite Z.mod_small by (unfold SIZE_BITS in *; lia).
  apply andb_true_intro; split; [apply Z.ltb_lt | apply Z.leb_le]; lia.
Qed.

Lemma send_guard_violated (b : Buffer) (offset length : Z) :
  0 <= offset < 2 ^ 32 -> 0 <= length < 2 ^ 32 ->
  0 <= buf_length b < 2 ^ SIZE_BITS ->
  ~ (offset < buf_length b /\ length <= buf_length b - offset) ->
  send_guard b offset length = false.
Proof.
  intros Ho Hl Hsize Hbad.
  unfold send_guard, Buffer_Length, size_sub.
  rewrite !to_size_t_uint32, !Uint32Value_small by assumption.
  destruct (offset <? buf_length b) eqn:Hlt; [|reflexivity].
  apply Z.ltb_lt in Hlt; simpl.
  rewrite Z.mod_small by (unfold SIZE_BITS in *; lia).
  apply Z.leb_gt; lia.
Qed.

Lemma DoSend_guard_violated os wrap b offset length port address fam s :
  send_guard b offset length = false ->
  UDPWrap.DoSend os wrap b offset length port address fam s = Aborted s.
Proof.
  unfold send_guard, UDPWrap.DoSend; unfold_monad.
  destruct (_ <? _); simpl; [|reflexivity].
  intros ->; reflexivity.
Qed.

End SendGuards.

Section RequestTable.

Lemma set_reqs_same (s : State) : set_reqs (reqs s) s = s.
Proof. destruct s; reflexivity. Qed.

Lemma map_update_fresh (r : nat) (f : SendWrap -> SendWrap)
  (l : list (nat * SendWrap)) :
  fresh_in r l ->
  map (fun e : nat * SendWrap =>
         if Nat.eqb (fst e) r then (fst e, f (snd e)) else e) l = l.
Proof.
  induction l as [|e l IH]; intros Hfresh; simpl; [reflexivity|].
  rewrite IH by (intros x Hx; apply Hfresh; right; exact Hx).
  destruct (Nat.eqb_spec (fst e) r) as [Heq|Hne]; [|reflexivity].
  exfalso; apply (Hfresh e); [left; reflexivity | exact Heq].
Qed.

Lemma update_req_head (r : nat) (f : SendWrap -> SendWrap) (w : SendWrap)
  (l : list (nat * SendWrap)) (s : State) :
  reqs s = (r, w) :: l ->
  fresh_in r l ->
  update_req r f s = Ret (tt, set_reqs ((r, f w) :: l) s).
Proof.
  intros Hreqs Hfresh.
  unfold update_req, modify; rewrite Hreqs; simpl.
  rewrite Nat.eqb_refl, map_update_fresh by exact Hfresh.
  reflexivity.
Qed.

Lemma find_req_fresh (r : nat) (l : list (nat * SendWrap)) :
  fresh_in r l -> find_req r l = None.
Proof.
  induction l as [|[k w] l IH]; intros Hfresh; simpl; [reflexivity|].
  destruct (Nat.eqb_spec k r) as [Heq|Hne].
  - exfalso; apply (Hfresh (k, w)); [left; reflexivity | exact Heq].
  - apply IH; intros x Hx; apply Hfresh; right; exact Hx.
Qed.

Lemma remove_req_fresh (r : nat) (l : list (nat * SendWrap)) :
  fresh_in r l -> remove_req r l = l.
Proof.
  induction l as [|[k w] l IH]; intros Hfresh; simpl; [reflexivity|].
  destruct (Nat.eqb_spec k r) as [Heq|Hne].
  - exfalso; apply (Hfresh (k, w)); [left; reflexivity | exact Heq].
  - rewrite IH; [reflexivity|].
    intros x Hx; apply Hfresh; right; exact Hx.
Qed.

Lemma find_req_remove_same (r : nat) (l : list (nat * SendWrap)) :
  find_req r (remove_req r l) = None.
Proof.
  induction l as [|[k w] l IH]; simpl; [reflexivity|].
  destruct (Nat.eqb_spec k r) as [Heq|Hne]; [exact IH|].
  simpl; destruct (Nat.eqb_spec k r); [contradiction | exact IH].
Qed.

Lemma find_req_remove_other (r k : nat) (l : list (nat * SendWrap)) :
  k <> r -> find_req k (remove_req r l) = find_req k l.
Proof.
  intros Hne.
  induction l as [|[j w] l IH]; simpl; [reflexivity|].
  destruct (Nat.eqb_spec j r) as [Hjr|Hjr].
  - subst j. destruct (Nat.eqb_spec r k); [congruence | exact IH].
  - simpl. destruct (Nat.eqb_spec j k); [reflexivity | exact IH].
Qed.

Lemma In_remove_req (r : nat) (e : nat * SendWrap)
  (l : list (nat * SendWrap)) :
  In e (remove_req r l) -> In e l.
Proof.
  induction l as [|[j w] l IH]; simpl; [tauto|].
  destruct (Nat.eqb j r); simpl; intuition.
Qed.

End RequestTable.

Section Invariant.

Lemma nodupb_NoDup (l : list nat) : nodupb l = true <-> NoDup l.
Proof.
  induction l as [|x l IH]; simpl.
  - split; [constructor | reflexivity].
  - rewrite andb_true_iff, negb_true_iff, IH. split.
    + intros [Hx Hl]. constructor; [|exact Hl].
      intros Hin. assert (existsb (Nat.eqb x) l = true); [|congruence].
      apply existsb_exists. exists x; split; [exact Hin | apply Nat.eqb_refl].
    + intros Hnd. inversion Hnd as [|? ? Hx Hl]; subst. split; [|exact Hl].
      destruct (existsb (Nat.eqb x) l) eqn:He; [|reflexivity].
      apply existsb_exists in He. destruct He as (y & Hy & Hxy).
      apply Nat.eqb_eq in Hxy; subst y; contradiction.
Qed.

Lemma wf_iff (s : State) : wf s <-> wf_props s.
Proof.
  unfold wf, wfb. rewrite !andb_true_iff, !forallb_forall, nodupb_NoDup.
  split.
  - intros [[[H1 H2] H3] H4]. constructor; auto.
    intros e He. apply Nat.ltb_lt, H1, He.
  - intros [H1 H2 H3 H4]. repeat split; auto.
    intros e He. apply Nat.ltb_lt, H1, He.
Qed.

Lemma wf_initial_state : wf initial_state.
Proof. reflexivity. Qed.

Lemma wf_fresh_reqs (s : State) : wf s -> fresh_in (next_req s) (reqs s).
Proof.
  intros Hwf e He Heq. apply wf_iff in Hwf.
  pose proof (wf_reqs_below s Hwf e He). lia.
Qed.

Lemma req_ready_live (s : State) (k : nat) :
  req_ready s k = true ->
  exists w h, find_req k (reqs s) = Some w /\ req_handle w = Some h.
Proof.
  unfold req_ready. destruct (find_req k (reqs s)) as [w|]; [|discriminate].
  destruct (req_handle w) as [h|] eqn:Hh; [|discriminate]. eauto.
Qed.

Lemma find_req_In (k : nat) (w : SendWrap) (l : list (nat * SendWrap)) :
  find_req k l = Some w -> In (k, w) l.
Proof.
  induction l as [|[j x] l IH]; simpl; [discriminate|].
  destruct (Nat.eqb_spec j k) as [->|Hne].
  - intros [= ->]; left; reflexivity.
  - intros H; right; apply IH, H.
Qed.

Lemma wf_fresh_queue (s : State) : wf s -> ~ In (next_req s) (uv_queue s).
Proof.
  intros Hwf Hin. pose proof (wf_fresh_reqs s Hwf) as Hfresh.
  apply wf_iff in Hwf.
  destruct (req_ready_live s _ (wf_queue_ready s Hwf _ Hin))
    as (w & h & Hw & _).
  rewrite find_req_fresh in Hw by exact Hfresh. discriminate.
Qed.

Lemma wf_fresh_calls (s : State) :
  wf s -> filter (is_completion_of (next_req s)) (calls s) = [].
Proof.
  intros Hwf. apply wf_iff in Hwf. pose proof (wf_calls_below s Hwf) as H.
  induction (calls s) as [|c l IH]; simpl; [reflexivity|].
  rewrite IH by (intros x Hx; apply H; right; exact Hx).
  specialize (H c (or_introl eq_refl)).
  unfold completion_below in H. unfold is_completion_of.
  destruct (cb_sym c); try reflexivity.
  destruct (cb_target c); try reflexivity.
  apply Nat.ltb_lt in H.
  destruct (Nat.eqb_spec r (next_req s)); [lia | reflexivity].
Qed.

End Invariant.

Section Send.

Import UDPWrap Loop.

Lemma DoSend_accepted wrap b offset length port address fam s :
  send_guard b offset length = true ->
  family_supported fam = true ->
  fresh_in (next_req s) (reqs s) ->
  DoSend OsOk wrap b offset length port address fam s =
    Ret (VReq (next_req s),
         sent_state wrap b offset length port address fam s).
Proof.
  intros Hguard Hfam Hfresh.
  apply andb_prop in Hguard. destruct Hguard as [Hg1 Hg2].
  unfold DoSend. unfold bind at 1. unfold assert at 1. rewrite Hg1.
  unfold bind at 1. unfold assert at 1. rewrite Hg2.
  unfold bind at 1. unfold new_SendWrap at 1.
  unfold bind at 1. unfold SetHiddenValue_buffer.
  erewrite update_req_head; [|reflexivity|exact Hfresh].
  destruct fam as [| |n]; [| |discriminate];
    unfold bind at 1;
    unfold Uv.uv_udp_send, Uv.uv_udp_send6, Uv.uv__send;
    unfold bind at 1; unfold modify at 1;
    unfold bind at 1;
    (erewrite update_req_head; [|reflexivity|exact Hfresh]);
    unfold bind at 1; unfold modify at 1; unfold ret at 1;
    unfold bind at 1; unfold Dispatched;
    (erewrite update_req_head; [|reflexivity|exact Hfresh]);
    reflexivity.
Qed.

Lemma DoSend_refused e wrap b offset length port address fam s :
  send_guard b offset length = true ->
  family_supported fam = true ->
  fresh_in (next_req s) (reqs s) ->
  DoSend (OsFail e) wrap b offset length port address fam s =
    Ret (VNull, refused_state e wrap b offset length port address fam s).
Proof.
  intros Hguard Hfam Hfresh.
  apply andb_prop in Hguard. destruct Hguard as [Hg1 Hg2].
  unfold DoSend. unfold bind at 1. unfold assert at 1. rewrite Hg1.
  unfold bind at 1. unfold assert at 1. rewrite Hg2.
  unfold bind at 1. unfold new_SendWrap at 1.
  unfold bind at 1. unfold SetHiddenValue_buffer.
  erewrite update_req_head; [|reflexivity|exact Hfresh].
  destruct fam as [| |n]; [| |discriminate];
    unfold bind at 1;
    unfold Uv.uv_udp_send, Uv.uv_udp_send6, Uv.uv__send;
    unfold bind at 1; unfold modify at 1;
    unfold bind at 1;
    (erewrite update_req_head; [|reflexivity|exact Hfresh]);
    unfold bind at 1; unfold modify at 1; unfold ret at 1;
    unfold bind at 1; unfold Dispatched;
    (erewrite update_req_head; [|reflexivity|exact Hfresh]);
    unfold_monad; unfold delete_SendWrap; unfold_monad; simpl;
    rewrite Nat.eqb_refl, remove_req_fresh by exact Hfresh;
    reflexivity.
Qed.

End Send.

Section Completion.

Import UDPWrap Loop.

Lemma OnSend_live req status s w wrap :
  find_req req (reqs s) = Some w ->
  req_handle w = Some wrap ->
  OnSend req status s =
    Ret (tt,
         set_reqs (remove_req req (reqs s))
           (log_call
              (completion_of req status wrap
                 (match hidden_buffer w with
                  | Some v => v
                  | None => VUndefined
                  end)
                 (errno_at_completion status s))
              (set_errno (errno_at_completion status s) s))).
Proof.
  intros Hw Hh.
  unfold OnSend, errno_at_completion; unfold_monad. rewrite Hw, Hh.
  unfold delete_SendWrap; unfold_monad.
  destruct (status =? 0); simpl; [|reflexivity].
  destruct s; reflexivity.
Qed.

Lemma filter_app_single {A : Type} (p : A -> bool) (l : list A) (x : A) :
  filter p (l ++ [x]) = filter p l ++ (if p x then [x] else []).
Proof. rewrite filter_app; reflexivity. Qed.

Lemma is_completion_of_completion r req status wrap payload e :
  is_completion_of r (completion_of req status wrap payload e) = Nat.eqb req r.
Proof. reflexivity. Qed.

Lemma existsb_eqb_In (r : nat) (q : list nat) :
  existsb (Nat.eqb r) q = true <-> In r q.
Proof.
  rewrite existsb_exists. split.
  - intros (x & Hx & Heq). apply Nat.eqb_eq in Heq. subst x. exact Hx.
  - intros Hin. exists r. split; [exact Hin | apply Nat.eqb_refl].
Qed.

Lemma In_remove_queued (r x : nat) (q : list nat) :
  In x (remove_queued r q) -> In x q.
Proof.
  induction q as [|y q IH]; simpl; [tauto|].
  destruct (Nat.eqb y r); simpl; intuition.
Qed.

Lemma In_remove_queued_other (r x : nat) (q : list nat) :
  x <> r -> In x q -> In x (remove_queued r q).
Proof.
  intros Hne. induction q as [|y q IH]; simpl; [tauto|].
  destruct (Nat.eqb_spec y r) as [->|Hyr]; simpl.
  - intros [Heq|Hin]; [congruence | exact Hin].
  - intros [Heq|Hin]; [left; exact Heq | right; exact (IH Hin)].
Qed.

Lemma NoDup_remove_queued (r : nat) (q : list nat) :
  NoDup q -> NoDup (remove_queued r q) /\ ~ In r (remove_queued r q).
Proof.
  induction q as [|y q IH]; simpl; intros Hnd.
  - split; [constructor | tauto].
  - inversion Hnd as [|? ? Hy Hq]; subst.
    destruct (Nat.eqb_spec y r) as [->|Hyr].
    + split; assumption.
    + destruct (IH Hq) as [Hnd' Hnot]. split.
      * constructor; [|exact Hnd'].
        intros Hin. apply Hy. exact (In_remove_queued r y q Hin).
      * intros [Heq|Hin]; [congruence | exact (Hnot Hin)].
Qed.

Lemma count_remove_queued_same (r : nat) (q : list nat) :
  In r q ->
  count_occ Nat.eq_dec q r = S (count_occ Nat.eq_dec (remove_queued r q) r).
Proof.
  induction q as [|y q IH]; simpl; [tauto|].
  intros Hin. destruct (Nat.eqb_spec y r) as [->|Hyr].
  - destruct (Nat.eq_dec r r); [reflexivity | contradiction].
  - destruct Hin as [Heq|Hin]; [congruence|].
    simpl. destruct (Nat.eq_dec y r); [contradiction | exact (IH Hin)].
Qed.

Lemma count_remove_queued_other (r x : nat) (q : list nat) :
  x <> r ->
  count_occ Nat.eq_dec (remove_queued r q) x = count_occ Nat.eq_dec q x.
Proof.
  intros Hne. induction q as [|y q IH]; simpl; [reflexivity|].
  destruct (Nat.eqb_spec y r) as [->|Hyr].
  - destruct (Nat.eq_dec r x); [congruence | reflexivity].
  - simpl. destruct (Nat.eq_dec y x); [rewrite IH|]; auto.
Qed.

Lemma remove_queued_absent (r : nat) (q : list nat) :
  ~ In r q -> remove_queued r q = q.
Proof.
  induction q as [|y q IH]; simpl; [reflexivity|].
  intros Hnot. destruct (Nat.eqb_spec y r) as [->|Hyr].
  - exfalso. apply Hnot. left. reflexivity.
  - rewrite IH; [reflexivity|]. intros Hin. apply Hnot. right. exact Hin.
Qed.

Lemma remove_req_not_same (r : nat) (e : nat * SendWrap)
  (l : list (nat * SendWrap)) :
  In e (remove_req r l) -> fst e <> r.
Proof.
  induction l as [|[k w] l IH]; simpl; [tauto|].
  destruct (Nat.eqb_spec k r) as [Heq|Hne]; [exact IH|].
  intros [<-|Hin]; [exact Hne | exact (IH Hin)].
Qed.

(** The completion of a request libuv does not hold: nothing happens. *)
Lemma complete_send_absent req st s :
  ~ In req (uv_queue s) -> complete_send req st s = Ret (tt, s).
Proof.
  intros Hnot. unfold complete_send; unfold_monad.
  destruct (existsb (Nat.eqb req) (uv_queue s)) eqn:Hex; [|reflexivity].
  apply existsb_eqb_In in Hex. contradiction.
Qed.

(** The completion of a queued request. *)
Lemma complete_send_queued req st s w wrap :
  In req (uv_queue s) ->
  find_req req (reqs s) = Some w ->
  req_handle w = Some wrap ->
  complete_send req st s = Ret (tt, completed_state req st w wrap s).
Proof.
  intros Hin Hw Hh.
  unfold complete_send. unfold bind at 1, gets at 1.
  rewrite (proj2 (existsb_eqb_In req (uv_queue s)) Hin).
  unfold completed_state.
  destruct st as [|e]; unfold_monad; simpl;
    rewrite (OnSend_live req _ _ w wrap) by assumption; reflexivity.
Qed.

Lemma completing_state_fields req st s :
  next_req (completing_state req st s) = next_req s /\
  reqs (completing_state req st s) = reqs s /\
  calls (completing_state req st s) = calls s /\
  uv_queue (completing_state req st s) = remove_queued req (uv_queue s) /\
  slab_allocator (completing_state req st s) = slab_allocator s /\
  handles (completing_state req st s) = handles s.
Proof. destruct st; simpl; auto 10. Qed.

Lemma complete_send_step req st s :
  queue_ok s ->
  exists s',
    complete_send req st s = Ret (tt, s') /\
    queue_ok s' /\
    uv_queue s' = remove_queued req (uv_queue s) /\
    next_req s' = next_req s /\
    slab_allocator s' = slab_allocator s /\
    (forall r, account r s' = account r s) /\
    (forall r wrap payload,
       carries r wrap payload s -> carries r wrap payload s') /\
    (no_orphan s -> no_orphan s') /\
    (wf s -> wf s').
Proof.
  intros [Hready Hnodup].
  destruct (in_dec Nat.eq_dec req (uv_queue s)) as [Hin|Hnot].
  2:{ exists s. rewrite (complete_send_absent req st s Hnot).
      rewrite (remove_queued_absent req _ Hnot).
      split; [reflexivity|]. split; [split; assumption|].
      split; [reflexivity|]. split; [reflexivity|]. split; [reflexivity|].
      split; [reflexivity|].
      split; [intros r wrap payload H; exact H|].
      split; intros H; exact H. }
  destruct (req_ready_live s req (Hready req Hin)) as (w & wrap & Hw & Hh).
  exists (completed_state req st w wrap s).
  split; [exact (complete_send_queued req st s w wrap Hin Hw Hh)|].
  destruct (completing_state_fields req st s)
    as (Hnext & Hreqs & Hcalls & Hqueue & Hslab & _).
  destruct (NoDup_remove_queued req _ Hnodup) as [Hnodup' Hgone].
  unfold completed_state.
  set (s0 := completing_state req st s) in *. clearbody s0.
  set (status := status_of st) in *. clearbody status.
  assert (Hready' : forall k, In k (remove_queued req (uv_queue s)) ->
            find_req k (remove_req req (reqs s)) = find_req k (reqs s) /\
            req_ready s k = true).
  { intros k Hk.
    assert (Hne : k <> req) by (intros ->; contradiction).
    rewrite find_req_remove_other by exact Hne.
    split; [reflexivity|].
    apply (Hready k). exact (In_remove_queued req k _ Hk). }
  split; [|split; [|split; [|split; [|split; [|split; [|split]]]]]].
  - unfold queue_ok; simpl. rewrite Hqueue.
    split; [|exact Hnodup'].
    intros k Hk. destruct (Hready' k Hk) as [Hfind Hr].
    unfold req_ready in *; simpl. rewrite Hfind. exact Hr.
  - exact Hqueue.
  - exact Hnext.
  - exact Hslab.
  - intros r. unfold account, completions, queued; simpl.
    rewrite Hcalls, Hqueue, filter_app_single,
      is_completion_of_completion, length_app.
    destruct (Nat.eq_dec req r) as [Heq|Hne].
    + subst r. rewrite Nat.eqb_refl.
      rewrite (count_remove_queued_same req _ Hin). simpl. lia.
    + destruct (Nat.eqb_spec req r); [contradiction|].
      rewrite count_remove_queued_other by congruence. simpl. lia.
  - intros r wrap' payload [Hlive Hdone].
    unfold carries; simpl. split.
    + intros w'. destruct (Nat.eq_dec r req) as [->|Hne].
      * rewrite find_req_remove_same. discriminate.
      * rewrite find_req_remove_other by exact Hne. apply Hlive.
    + intros c Hc Hcomp. rewrite Hcalls in Hc.
      apply in_app_or in Hc. destruct Hc as [Hc|[<-|[]]].
      * apply Hdone; assumption.
      * rewrite is_completion_of_completion in Hcomp.
        apply Nat.eqb_eq in Hcomp. subst r.
        destruct (Hlive w Hw) as [Hh' Hp].
        rewrite Hh in Hh'. injection Hh' as ->. rewrite Hp.
        exists status. split; [reflexivity|].
        intros Hst. simpl. unfold errno_at_completion.
        destruct (Z.eqb_spec status 0); [contradiction|discriminate].
  - intros Horphan e He. simpl in *. rewrite Hqueue.
    pose proof (remove_req_not_same _ _ _ He) as Hne.
    apply In_remove_req in He.
    apply In_remove_queued_other; [exact Hne | exact (Horphan e He)].
  - intros Hwf. apply wf_iff in Hwf. apply wf_iff.
    destruct Hwf as [Hbelow _ _ Hold].
    constructor; simpl; rewrite ?Hqueue, ?Hnext.
    + intros e He. apply In_remove_req in He. apply Hbelow, He.
    + intros k Hk. destruct (Hready' k Hk) as [Hfind Hr].
      unfold req_ready in *; simpl. rewrite Hfind. exact Hr.
    + exact Hnodup'.
    + intros c Hc. rewrite Hcalls in Hc.
      apply in_app_or in Hc. destruct Hc as [Hc|[<-|[]]].
      * apply Hold, Hc.
      * unfold completion_below; simpl. apply Nat.ltb_lt.
        apply (Hbelow (req, w)), find_req_In, Hw.
Qed.

(** A schedule of completions, in any order: the loop never aborts, and
    what is left in the queue is what the schedule does not name. *)
Lemma run_completions_spec sch :
  forall s,
    queue_ok s ->
    exists s',
      run_completions sch s = Ret (tt, s') /\
      queue_ok s' /\
      (forall r, In r (uv_queue s') <->
                 In r (uv_queue s) /\ ~ In r (map fst sch)) /\
      (forall r, account r s' = account r s) /\
      (forall r wrap payload,
         carries r wrap payload s -> carries r wrap payload s') /\
      (no_orphan s -> no_orphan s') /\
      (wf s -> wf s').
Proof.
  induction sch as [|[req st] sch IH]; intros s Hok.
  - exists s. simpl. unfold ret.
    split; [reflexivity|]. split; [exact Hok|].
    split; [intros r; tauto|]. split; [reflexivity|].
    split; [intros r wrap payload H; exact H|].
    split; intros H; exact H.
  - destruct (complete_send_step req st s Hok)
      as (s1 & Hstep & Hok1 & Hq1 & _ & _ & Hacc1 & Hcar1 & Horph1 & Hwf1).
    destruct (IH s1 Hok1)
      as (s2 & Hrun & Hok2 & Hq2 & Hacc2 & Hcar2 & Horph2 & Hwf2).
    exists s2. simpl. unfold bind. rewrite Hstep.
    split; [exact Hrun|]. split; [exact Hok2|].
    split; [|split; [|split; [|split]]].
    + intros r. rewrite Hq2, Hq1. destruct Hok as [_ Hnodup].
      destruct (NoDup_remove_queued req _ Hnodup) as [_ Hgone].
      split.
      * intros [Hin Hnot]. split; [exact (In_remove_queued req r _ Hin)|].
        intros [Heq|Hsch]; [|exact (Hnot Hsch)].
        simpl in Heq. subst r. exact (Hgone Hin).
      * intros [Hin Hnot]. split.
        -- apply In_remove_queued_other; [|exact Hin].
           intros ->. apply Hnot. left. reflexivity.
        -- intros Hsch. apply Hnot. right. exact Hsch.
    + intros r. rewrite Hacc2. apply Hacc1.
    + intros r wrap payload Hc. apply Hcar2, Hcar1, Hc.
    + intros H. apply Horph2, Horph1, H.
    + intros H. apply Hwf2, Hwf1, H.
Qed.

End Completion.

Section SendOutcome.

Import UDPWrap Loop.

Lemma DoSend_returns_inv os wrap b offset length port address fam s v s' :
  fresh_in (next_req s) (reqs s) ->
  DoSend os wrap b offset length port address fam s = Ret (v, s') ->
  send_guard b offset length = true /\ family_supported fam = true.
Proof.
  intros Hfresh Hrun.
  destruct (send_guard b offset length) eqn:Hguard.
  - split; [reflexivity|].
    destruct fam as [| |n]; try reflexivity.
    exfalso. revert Hrun.
    apply andb_prop in Hguard. destruct Hguard as [Hg1 Hg2].
    unfold DoSend. unfold bind at 1. unfold assert at 1. rewrite Hg1.
    unfold bind at 1. unfold assert at 1. rewrite Hg2.
    unfold bind at 1. unfold new_SendWrap at 1.
    unfold bind at 1. unfold SetHiddenValue_buffer.
    erewrite update_req_head; [|reflexivity|exact Hfresh].
    unfold bind at 1, abort. discriminate.
  - rewrite DoSend_guard_violated in Hrun by exact Hguard. discriminate.
Qed.

Lemma queue_ok_of_wf s : wf s -> queue_ok s.
Proof.
  intros Hwf. apply wf_iff in Hwf. destruct Hwf. split; assumption.
Qed.

Lemma queue_ok_sent wrap b offset length port address fam s :
  wf s -> queue_ok (sent_state wrap b offset length port address fam s).
Proof.
  intros Hwf.
  pose proof (wf_fresh_queue s Hwf) as Hnotin.
  pose proof (wf_fresh_reqs s Hwf) as Hfresh.
  destruct (queue_ok_of_wf s Hwf) as [Hready Hnodup].
  split; simpl.
  - intros k Hk. apply in_app_or in Hk. unfold req_ready; simpl.
    destruct Hk as [Hk|[<-|[]]].
    + destruct (Nat.eqb_spec (next_req s) k) as [Heq|Hne].
      * subst k. contradiction.
      * apply (Hready k Hk).
    + rewrite Nat.eqb_refl. reflexivity.
  - apply NoDup_app; [exact Hnodup | repeat constructor; intros [] |].
    intros x Hx [<-|[]]. contradiction.
Qed.

Lemma carries_sent wrap b offset length port address fam s :
  wf s ->
  carries (next_req s) wrap (VBuffer b)
    (sent_state wrap b offset length port address fam s).
Proof.
  intros Hwf. split; simpl.
  - intros w. rewrite Nat.eqb_refl. intros [= <-]. split; reflexivity.
  - intros c Hc Hcomp. exfalso.
    assert (Hin : In c (filter (is_completion_of (next_req s)) (calls s)))
      by (apply filter_In; split; assumption).
    rewrite wf_fresh_calls in Hin by exact Hwf. destruct Hin.
Qed.

Lemma account_sent wrap b offset length port address fam s :
  wf s ->
  account (next_req s) (sent_state wrap b offset length port address fam s)
  = 1%nat.
Proof.
  intros Hwf. unfold account, completions, queued; simpl.
  rewrite wf_fresh_calls by exact Hwf. simpl.
  rewrite count_occ_app; simpl.
  destruct (Nat.eq_dec (next_req s) (next_req s)); [|contradiction].
  rewrite (proj1 (count_occ_not_In Nat.eq_dec _ _) (wf_fresh_queue s Hwf)).
  reflexivity.
Qed.

Lemma account_refused e wrap b offset length port address fam s :
  wf s ->
  account (next_req s)
    (refused_state e wrap b offset length port address fam s) = 0%nat.
Proof.
  intros Hwf. unfold account, completions, queued; simpl.
  rewrite wf_fresh_calls by exact Hwf. simpl.
  apply count_occ_not_In, wf_fresh_queue, Hwf.
Qed.

End SendOutcome.

(** C3, as the code has it.  A call of [send] whose offset and length
    (unsigned 32-bit numbers) break [offset < length of the payload] or
    [length <= length of the payload - offset] trips an assertion at once:
    the process is aborted in the state it was in when [send] was called.
    The call does not return, so no argument error reaches the caller; no
    request has been made, nothing has been handed to libuv or delivered to
    JavaScript, and the last error has not been touched. *)
Theorem send_out_of_bounds_aborts :
  forall os wrap b offset length port address fam s,
    0 <= offset < 2 ^ 32 ->
    0 <= length < 2 ^ 32 ->
    0 <= buf_length b < 2 ^ SIZE_BITS ->
    ~ (offset < buf_length b /\ length <= buf_length b - offset) ->
    UDPWrap.DoSend os wrap b offset length port address fam s = Aborted s.
Proof.
  intros os wrap b offset length port address fam s Ho Hl Hb Hbad.
  apply DoSend_guard_violated, send_guard_violated; assumption.
Qed.

Lemma send_out_of_bounds_aborts_witness :
  UDPWrap.Send OsOk 0 (mk_Buffer 7 5) 2 4 4000 (VStr "127.0.0.1")
    initial_state = Aborted initial_state.
Proof.
  apply (send_out_of_bounds_aborts OsOk 0 (mk_Buffer 7 5) 2 4 4000
           (VStr "127.0.0.1") AF_INET initial_state); simpl; lia.
Defined.

(** C3, as stated, fails: with a payload of 5 bytes, offset 5 and length 1
    no value is returned to the caller, the process aborts. *)
Lemma send_out_of_bounds_not_reported :
  ~ (exists v s',
       UDPWrap.Send OsOk 0 (mk_Buffer 7 5) 5 1 4000 (VStr "127.0.0.1")
         initial_state = Ret (v, s')).
Proof. intros (v & s' & H). discriminate H. Qed.

(** The invariant is kept by [send], whatever its outcome. *)
Lemma wf_DoSend os wrap b offset length port address fam s v s' :
  wf s ->
  UDPWrap.DoSend os wrap b offset length port address fam s = Ret (v, s') ->
  wf s'.
Proof.
  intros Hwf Hrun.
  pose proof (wf_fresh_reqs s Hwf) as Hfresh.
  destruct (DoSend_returns_inv _ _ _ _ _ _ _ _ _ _ _ Hfresh Hrun)
    as [Hguard Hfam].
  assert (Hmono : forall c, completion_below (next_req s) c = true ->
                            completion_below (S (next_req s)) c = true).
  { intros c. unfold completion_below.
    destruct (cb_sym c); auto. destruct (cb_target c); auto.
    rewrite !Nat.ltb_lt. lia. }
  pose proof Hwf as Hp. apply wf_iff in Hp.
  destruct Hp as [Hbelow Hready Hnodup Hcalls].
  destruct os as [|e].
  - rewrite DoSend_accepted in Hrun by assumption.
    injection Hrun as <- <-. apply wf_iff.
    destruct (queue_ok_sent wrap b offset length port address fam s Hwf)
      as [Hready' Hnodup'].
    constructor; try assumption; simpl.
    + intros x [<-|Hx]; simpl; [lia|]. specialize (Hbelow x Hx). lia.
    + intros c Hc. apply Hmono, Hcalls, Hc.
  - rewrite DoSend_refused in Hrun by assumption.
    injection Hrun as <- <-. apply wf_iff.
    constructor; simpl; try assumption.
    + intros x Hx. specialize (Hbelow x Hx). lia.
    + intros c Hc. apply Hmono, Hcalls, Hc.
Qed.

(** ** Receiving *)

Section Receive.

Import UDPWrap Loop.

Lemma to_uint_small (z : Z) : 0 <= z < 2 ^ 32 -> to_uint z = z.
Proof. intros H; unfold to_uint; apply Z.mod_small; exact H. Qed.

Lemma slab_ok_initial : slab_ok (slab_allocator initial_state) = true.
Proof. reflexivity. Qed.

Lemma slab_ok_iff (a : SlabAllocator) :
  slab_ok a = true <->
  0 <= offset_ a <= size_ a /\ size_ a < 2 ^ 32 /\
  (buf_id (slab_ a) < next_buf a)%nat /\
  (forall q, last_ptr_ a = Some q -> blk q = buf_id (slab_ a)).
Proof.
  unfold slab_ok.
  rewrite !andb_true_iff, !Z.leb_le, Z.ltb_lt, Nat.ltb_lt.
  destruct (last_ptr_ a) as [q|].
  - rewrite Nat.eqb_eq. split.
    + intros [[[[H1 H2] H3] H4] H5]. repeat split; try assumption.
      intros q' [= <-]. exact H5.
    + intros ([H1 H2] & H3 & H4 & H5). repeat split; auto.
  - split.
    + intros [[[[H1 H2] H3] H4] _]. repeat split; try assumption.
      intros q' [=].
    + intros ([H1 H2] & H3 & H4 & _). repeat split; auto.
Qed.

Lemma slab_ok_bounds (a : SlabAllocator) :
  slab_ok a = true -> 0 <= offset_ a <= size_ a /\ size_ a < 2 ^ 32.
Proof.
  intros Hok. apply slab_ok_iff in Hok. tauto.
Qed.

Lemma ptr_eqb_refl (p : ptr) : ptr_eqb p p = true.
Proof. unfold ptr_eqb. rewrite Nat.eqb_refl, Z.eqb_refl. reflexivity. Qed.

(** The region [Allocate] hands out lies in the parent buffer recorded for
    the consumer. *)
Lemma slab_Allocate_holds (obj : nat) (size : Z) (a : SlabAllocator) :
  exists parent,
    region_of obj (regions (snd (slab_Allocate obj size a))) = Some parent /\
    blk (fst (slab_Allocate obj size a)) = buf_id parent /\
    slab_log (snd (slab_Allocate obj size a)) =
      slab_log a ++ [SlabAllocate obj size].
Proof.
  unfold slab_Allocate.
  destruct (offset_ a + size <=? size_ a); simpl.
  - exists (slab_ a). rewrite Nat.eqb_refl. repeat split.
  - exists (mk_Buffer (next_buf a) size). rewrite Nat.eqb_refl. repeat split.
Qed.


(** A region carved and shrunk at once, as in a receive event: the slab
    keeps its capacity and its buffer, and its write offset has advanced by
    the [kept] bytes of the final region when the region was carved from
    the slab, by nothing when it was a standalone buffer. *)
Lemma slab_carve_and_shrink (obj : nat) (size kept : Z) (a : SlabAllocator) :
  slab_ok a = true -> 0 <= kept <= size ->
  exists parent a',
    slab_Shrink obj (fst (slab_Allocate obj size a)) kept
      (snd (slab_Allocate obj size a)) = Some (parent, a') /\
    size_ a' = size_ a /\ slab_ a' = slab_ a /\
    offset_ a' =
      offset_ a + (if offset_ a + size <=? size_ a then kept else 0) /\
    slab_ok a' = true.
Proof.
  intros Hok Hkept. pose proof Hok as Hok'. apply slab_ok_iff in Hok'.
  destruct Hok' as (Hoff & Hcap & Hnext & Hlast).
  unfold slab_Allocate, slab_Shrink.
  destruct (Z.leb_spec (offset_ a + size) (size_ a)) as [Hfit|Hfull]; simpl;
    rewrite Nat.eqb_refl; eexists; eexists; (split; [reflexivity|]); simpl.
  - unfold offset_after_shrink, last_after_shrink; simpl.
    rewrite ptr_eqb_refl. simpl.
    repeat split; try lia. apply slab_ok_iff; simpl.
    repeat split; try lia. intros q [=].
  - unfold offset_after_shrink, last_after_shrink; simpl.
    destruct (last_ptr_ a) as [q|] eqn:Hq.
    + assert (Hne : ptr_eqb (Buffer_Data (mk_Buffer (next_buf a) size)) q
                    = false).
      { unfold ptr_eqb; simpl. rewrite (Hlast q eq_refl).
        destruct (Nat.eqb_spec (next_buf a) (buf_id (slab_ a))); [lia|].
        reflexivity. }
      rewrite Hne. repeat split; try lia. apply slab_ok_iff; simpl.
      repeat split; try lia. intros q' [= <-]. exact (Hlast q eq_refl).
    + repeat split; try lia. apply slab_ok_iff; simpl.
      repeat split; try lia. intros q' [=].
Qed.

Lemma region_of_drop (obj : nat) (l : list (nat * Buffer)) :
  region_of obj (drop_region obj l) = None.
Proof.
  induction l as [|[o b] l IH]; simpl; [reflexivity|].
  destruct (Nat.eqb_spec o obj); [exact IH|].
  simpl. destruct (Nat.eqb_spec o obj); [contradiction | exact IH].
Qed.

(** [OnRecv] in a state where the socket holds a region of [parent]. *)
Lemma OnRecv_zero h buf addr flags s parent :
  region_of h (regions (slab_allocator s)) = Some parent ->
  exists s',
    OnRecv h 0 buf addr flags s = Ret (tt, s') /\
    calls s' = calls s /\ errno s' = errno s /\
    slab_log (slab_allocator s') =
      slab_log (slab_allocator s) ++ [SlabShrink h (base buf) 0] /\
    region_of h (regions (slab_allocator s')) = None /\
    slab_Shrink h (base buf) 0 (slab_allocator s)
      = Some (parent, slab_allocator s').
Proof.
  intros Hregion.
  unfold OnRecv, Shrink, slab_Shrink; unfold_monad. rewrite Hregion. simpl.
  eexists. split; [reflexivity|]. simpl.
  repeat split. apply region_of_drop.
Qed.

Lemma OnRecv_error h nread buf addr flags s parent :
  nread < 0 ->
  region_of h (regions (slab_allocator s)) = Some parent ->
  exists s',
    OnRecv h nread buf addr flags s = Ret (tt, s') /\
    calls s' =
      calls s ++
      [mk_Callback (VSock h) onmessage_sym [VSock h] (Some (uv_last s))] /\
    errno s' = Some (uv_last s) /\
    slab_log (slab_allocator s') =
      slab_log (slab_allocator s) ++ [SlabShrink h (base buf) 0] /\
    region_of h (regions (slab_allocator s')) = None /\
    slab_Shrink h (base buf) 0 (slab_allocator s)
      = Some (parent, slab_allocator s').
Proof.
  intros Hneg Hregion.
  unfold OnRecv, Shrink, slab_Shrink; unfold_monad. rewrite Hregion.
  destruct (Z.ltb_spec nread 0) as [_|]; [|lia].
  destruct (Z.eqb_spec nread 0) as [|_]; [lia|]. simpl.
  eexists. split; [reflexivity|]. simpl.
  repeat split. apply region_of_drop.
Qed.


(** The state in which [OnRecv] runs during a receive event. *)
Lemma recv_event_unfold h size nread addr flags e s :
  recv_event h size nread addr flags e s =
    OnRecv h nread
      (uv_buf_init
         (fst (slab_Allocate h (to_uint size) (slab_allocator s))) size)
      addr flags
      (if nread <? 0
       then set_uv_last e
              (set_slab
                 (snd (slab_Allocate h (to_uint size) (slab_allocator s))) s)
       else set_slab
              (snd (slab_Allocate h (to_uint size) (slab_allocator s))) s).
Proof.
  unfold recv_event, OnAlloc, Allocate. unfold bind at 1. unfold bind at 1.
  destruct (slab_Allocate h (to_uint size) (slab_allocator s)) as [p a].
  simpl. unfold ret at 1. unfold bind at 1.
  destruct (nread <? 0); reflexivity.
Qed.

End Receive.

(** C6.  A receive event that read zero bytes delivers nothing to the
    application: [OnRecv] returns right after giving the region back, in
    the handler taken alone and in the whole event, and the last error is
    untouched. *)
Theorem zero_read_no_notification :
  (forall h buf addr flags s parent,
     region_of h (regions (slab_allocator s)) = Some parent ->
     exists s',
       UDPWrap.OnRecv h 0 buf addr flags s = Ret (tt, s') /\
       calls s' = calls s /\ errno s' = errno s)
  /\
  (forall h size addr flags e s,
   exists s',
     Loop.recv_event h size 0 addr flags e s = Ret (tt, s') /\
     calls s' = calls s /\ errno s' = errno s).
Proof.
  split.
  - intros h buf addr flags s parent Hregion.
    destruct (OnRecv_zero h buf addr flags s parent Hregion)
      as (s' & Hrun & Hcalls & Herrno & _).
    exists s'. auto.
  - intros h size addr flags e s.
    rewrite recv_event_unfold. simpl.
    destruct (slab_Allocate_holds h (to_uint size) (slab_allocator s))
      as (parent & Hregion & _).
    destruct (OnRecv_zero h
                (uv_buf_init
                   (fst (slab_Allocate h (to_uint size) (slab_allocator s)))
                   size)
                addr flags
                (set_slab
                   (snd (slab_Allocate h (to_uint size) (slab_allocator s)))
                   s)
                parent Hregion)
      as (s' & Hrun & Hcalls & Herrno & _).
    exists s'. auto.
Qed.

Lemma zero_read_no_notification_witness :
  exists s',
    Loop.recv_event 3 65536 0 None 0 (mk_uv_err UV_OK 0) initial_state
      = Ret (tt, s') /\
    calls s' = [].
Proof.
  destruct zero_read_no_notification as [_ Hevent].
  destruct (Hevent 3%nat 65536 None 0 (mk_uv_err UV_OK 0) initial_state)
    as (s' & Hrun & Hcalls & _).
  exists s'. split; [exact Hrun | exact Hcalls].
Defined.

(** C7.  A receive event that failed delivers exactly one [onmessage]
    notification whose only argument is the socket: no buffer, no offset, no
    length, no address.  The last error is set from libuv's last error
    before the notification is made. *)
Theorem error_read_notification :
  (forall h nread buf addr flags s parent,
     nread < 0 ->
     region_of h (regions (slab_allocator s)) = Some parent ->
     exists s',
       UDPWrap.OnRecv h nread buf addr flags s = Ret (tt, s') /\
       calls s' =
         calls s ++
         [mk_Callback (VSock h) onmessage_sym [VSock h] (Some (uv_last s))] /\
       errno s' = Some (uv_last s))
  /\
  (forall h size nread addr flags e s,
     nread < 0 ->
     exists s',
       Loop.recv_event h size nread addr flags e s = Ret (tt, s') /\
       calls s' =
         calls s ++ [mk_Callback (VSock h) onmessage_sym [VSock h] (Some e)] /\
       errno s' = Some e).
Proof.
  split.
  - intros h nread buf addr flags s parent Hneg Hregion.
    destruct (OnRecv_error h nread buf addr flags s parent Hneg Hregion)
      as (s' & Hrun & Hcalls & Herrno & _).
    exists s'. auto.
  - intros h size nread addr flags e s Hneg.
    rewrite recv_event_unfold.
    destruct (Z.ltb_spec nread 0) as [_|]; [|lia].
    destruct (slab_Allocate_holds h (to_uint size) (slab_allocator s))
      as (parent & Hregion & _).
    destruct (OnRecv_error h nread
                (uv_buf_init
                   (fst (slab_Allocate h (to_uint size) (slab_allocator s)))
                   size)
                addr flags
                (set_uv_last e
                   (set_slab
                      (snd (slab_Allocate h (to_uint size) (slab_allocator s)))
                      s))
                parent Hneg Hregion)
      as (s' & Hrun & Hcalls & Herrno & _).
    exists s'. auto.
Qed.

Lemma error_read_notification_witness :
  exists s',
    Loop.recv_event 3 65536 (-1) None 0 (mk_uv_err UV_ERECEIVE 104)
      initial_state = Ret (tt, s') /\
    calls s' =
      [mk_Callback (VSock 3) onmessage_sym [VSock 3]
         (Some (mk_uv_err UV_ERECEIVE 104))].
Proof.
  destruct error_read_notification as [_ Hevent].
  destruct (Hevent 3%nat 65536 (-1) None 0 (mk_uv_err UV_ERECEIVE 104)
              initial_state)
    as (s' & Hrun & Hcalls & _); [lia|].
  exists s'. split; [exact Hrun | exact Hcalls].
Defined.



(** ** Receive events and the send path *)

Section ReceiveEvents.

Import UDPWrap Loop.

(** A receive event never aborts; it leaves the send requests alone and
    delivers one [onmessage] notification on its socket, or none when the
    read was empty. *)
Lemma recv_event_effect h size nread addr flags e s :
  exists s' new,
    recv_event h size nread addr flags e s = Ret (tt, s') /\
    next_req s' = next_req s /\ reqs s' = reqs s /\
    uv_queue s' = uv_queue s /\
    calls s' = calls s ++ new /\
    map cb_channel new =
      (if nread =? 0 then [] else [(onmessage_sym, VSock h)]).
Proof.
  rewrite recv_event_unfold.
  destruct (slab_Allocate_holds h (to_uint size) (slab_allocator s))
    as (parent & Hregion & Hblk & _).
  set (p := fst (slab_Allocate h (to_uint size) (slab_allocator s))) in *.
  set (a := snd (slab_Allocate h (to_uint size) (slab_allocator s))) in *.
  unfold OnRecv, Shrink, slab_Shrink; unfold_monad.
  set (s0 := if nread <? 0 then set_uv_last _ _ else _).
  assert (Hs0 : next_req s0 = next_req s /\ reqs s0 = reqs s /\
                uv_queue s0 = uv_queue s /\ calls s0 = calls s /\
                slab_allocator s0 = a).
  { unfold s0. destruct (nread <? 0); simpl; auto. }
  destruct Hs0 as (Hnext & Hreqs & Hqueue & Hcalls & Hslab).
  clearbody s0. rewrite Hslab, Hregion. simpl.
  destruct (nread =? 0).
  - eexists. exists []. split; [reflexivity|]. simpl.
    rewrite app_nil_r. auto.
  - destruct (nread <? 0).
    + eexists. eexists. split; [reflexivity|]. simpl.
      rewrite Hcalls. repeat split; auto.
    + unfold ptr_diff, Buffer_Data; simpl. rewrite Hblk, Nat.eqb_refl.
      eexists. eexists. split; [reflexivity|]. simpl.
      rewrite Hcalls. repeat split; auto.
Qed.

Lemma completions_app (r : nat) (l new : list Callback) :
  (forall c, In c new -> cb_sym c = onmessage_sym) ->
  completions r (l ++ new) = completions r l.
Proof.
  intros Hnew. unfold completions. rewrite filter_app, length_app.
  assert (Hnone : filter (is_completion_of r) new = []).
  { induction new as [|c new IH]; simpl; [reflexivity|].
    unfold is_completion_of at 1. rewrite (Hnew c (or_introl eq_refl)).
    apply IH. intros x Hx. apply Hnew. right. exact Hx. }
  rewrite Hnone. simpl. lia.
Qed.

Lemma channel_onmessage (new : list Callback) (l : list (symbol * Value)) :
  map cb_channel new = l ->
  (forall x, In x l -> fst x = onmessage_sym) ->
  forall c, In c new -> cb_sym c = onmessage_sym.
Proof.
  intros Hmap Hall c Hc.
  apply (Hall (cb_channel c)). rewrite <- Hmap. apply in_map. exact Hc.
Qed.

(** What a receive event delivers is on the [onmessage] channel. *)
Lemma recv_event_onmessage h size nread addr flags e s s' :
  recv_event h size nread addr flags e s = Ret (tt, s') ->
  next_req s' = next_req s /\ reqs s' = reqs s /\
  uv_queue s' = uv_queue s /\
  exists new,
    calls s' = calls s ++ new /\
    forall c, In c new -> cb_sym c = onmessage_sym.
Proof.
  intros Hrun.
  destruct (recv_event_effect h size nread addr flags e s)
    as (s1 & new & Hrun1 & Hnext & Hreqs & Hqueue & Hcalls & Hnew).
  rewrite Hrun in Hrun1. injection Hrun1 as <-.
  split; [exact Hnext|]. split; [exact Hreqs|]. split; [exact Hqueue|].
  exists new. split; [exact Hcalls|].
  apply (channel_onmessage new _ Hnew).
  destruct (nread =? 0); [intros x []|].
  intros x [<-|[]]. reflexivity.
Qed.

End ReceiveEvents.

(** ** What the other operations leave alone *)

Section Frame.

Import UDPWrap Loop.

(** An operation that leaves the send requests and libuv's queue alone, and
    delivers nothing but [onmessage] notifications, keeps the invariant. *)
Lemma wf_frame (s s' : State) :
  next_req s' = next_req s ->
  reqs s' = reqs s ->
  uv_queue s' = uv_queue s ->
  (forall c, In c (calls s') -> In c (calls s) \/ cb_sym c = onmessage_sym) ->
  wf s -> wf s'.
Proof.
  intros Hnext Hreqs Hqueue Hcalls Hwf.
  apply wf_iff in Hwf. apply wf_iff.
  destruct Hwf as [Hbelow Hready Hnodup Hold].
  constructor; rewrite ?Hnext, ?Hreqs, ?Hqueue; try assumption.
  - intros k Hk. unfold req_ready. rewrite Hreqs. apply (Hready k Hk).
  - intros c Hc. destruct (Hcalls c Hc) as [Hin | Hsym].
    + apply Hold, Hin.
    + unfold completion_below. rewrite Hsym. reflexivity.
Qed.

Lemma wf_same_sends (s s' : State) : same_sends s s' -> wf s -> wf s'.
Proof.
  intros (Hnext & Hreqs & Hqueue & Hcalls).
  apply wf_frame; try assumption.
  intros c Hc. left. rewrite <- Hcalls. exact Hc.
Qed.

Ltac run_control :=
  unfold same_sends, DoBind, X, SetMembership, RecvStart, RecvStop,
    GetSockName;
  unfold_uv; unfold_monad; simpl.

Lemma DoBind_same_sends os h address port flags fam s v s' :
  DoBind os h address port flags fam s = Ret (v, s') -> same_sends s s'.
Proof.
  run_control.
  destruct fam as [| |n]; simpl; try discriminate;
    destruct (bound (handles s h)) as [a|]; simpl;
    try destruct (family_eqb (sa_family a) _); simpl;
    destruct os as [|e]; simpl; intros [= <- <-]; simpl; auto.
Qed.

Lemma X_same_sends o os h arg s v s' :
  X (Uv.uv_udp_set_option o) os h arg s = Ret (v, s') -> same_sends s s'.
Proof.
  run_control. destruct os as [|e]; simpl; intros [= <- <-]; simpl; auto.
Qed.

Lemma SetMembership_same_sends os h address iface m s v s' :
  SetMembership os h address iface m s = Ret (v, s') -> same_sends s s'.
Proof.
  run_control. destruct os as [|e]; simpl; intros [= <- <-]; simpl; auto.
Qed.

Lemma RecvStart_same_sends os h s v s' :
  RecvStart os h s = Ret (v, s') -> same_sends s s'.
Proof.
  run_control.
  destruct (recv_armed (handles s h)); simpl;
    [|destruct os as [|e]; simpl; [|destruct (is_EALREADY (code e)); simpl]];
    intros [= <- <-]; simpl; auto.
Qed.

Lemma RecvStop_same_sends os h s v s' :
  RecvStop os h s = Ret (v, s') -> same_sends s s'.
Proof.
  run_control. destruct os as [|e]; simpl; intros [= <- <-]; simpl; auto.
Qed.

Lemma GetSockName_same_sends os h s v s' :
  GetSockName os h s = Ret (v, s') -> same_sends s s'.
Proof.
  run_control.
  destruct (bound (handles s h)) as [a|]; simpl;
    destruct os as [|e]; simpl; intros [= <- <-]; simpl; auto.
Qed.

Lemma wf_recv_event h size nread addr flags e s s' :
  recv_event h size nread addr flags e s = Ret (tt, s') -> wf s -> wf s'.
Proof.
  intros Hrun.
  destruct (recv_event_onmessage _ _ _ _ _ _ _ _ Hrun)
    as (Hnext & Hreqs & Hqueue & new & Hcalls & Hnew).
  apply wf_frame; try assumption.
  intros c Hc. rewrite Hcalls in Hc. apply in_app_or in Hc.
  destruct Hc as [Hc|Hc]; [left; exact Hc | right; exact (Hnew c Hc)].
Qed.

End Frame.

(** ** One step, and any number of steps *)

Section Steps.

Import UDPWrap Loop.

(** The completion of a request leaves no other request alive without a
    place in libuv's queue. *)
Lemma complete_send_live req st s s' r :
  queue_ok s ->
  complete_send req st s = Ret (tt, s') ->
  (live r s = true -> In r (uv_queue s)) ->
  live r s' = true -> In r (uv_queue s').
Proof.
  intros Hok Hrun Hheld.
  destruct (in_dec Nat.eq_dec req (uv_queue s)) as [Hin|Hnot].
  - destruct (req_ready_live s req (proj1 Hok req Hin))
      as (w & wrap & Hw & Hh).
    rewrite (complete_send_queued req st s w wrap Hin Hw Hh) in Hrun.
    injection Hrun as <-.
    destruct (completing_state_fields req st s)
      as (_ & _ & _ & Hqueue & _).
    unfold live, completed_state; simpl. rewrite Hqueue.
    destruct (Nat.eq_dec r req) as [->|Hne].
    + rewrite find_req_remove_same. discriminate.
    + rewrite find_req_remove_other by exact Hne.
      intros Hlive. apply In_remove_queued_other; [exact Hne|].
      apply Hheld. exact Hlive.
  - rewrite (complete_send_absent req st s Hnot) in Hrun.
    injection Hrun as <-. exact Hheld.
Qed.

(** What a step does to the requests made before it: the invariant is
    kept, request numbers are never reused, the account of every request
    is unchanged, but for the request an accepted [send] has just made,
    and what the request holds and has delivered stays as it is. *)
Lemma same_sends_effect (t u : State) :
  same_sends t u ->
  next_req u = next_req t /\
  (forall r, account r u = account r t) /\
  (forall r wrap payload,
     carries r wrap payload t -> carries r wrap payload u) /\
  (forall r, (live r t = true -> In r (uv_queue t)) ->
             live r u = true -> In r (uv_queue u)) /\
  (no_orphan t -> no_orphan u).
Proof.
  intros (Hnext & Hreqs & Hqueue & Hcalls).
  unfold account, queued, carries, live, no_orphan.
  rewrite Hreqs, Hqueue, Hcalls. auto 10.
Qed.

Lemma step_effect (t u : State) :
  wf t -> step t u ->
  wf u /\
  (next_req t <= next_req u)%nat /\
  (forall r, account r u = account r t \/
             (r = next_req t /\ account r u = 1%nat)) /\
  (forall r wrap payload,
     (r < next_req t)%nat ->
     carries r wrap payload t -> carries r wrap payload u) /\
  (forall r, (r < next_req t)%nat ->
             (live r t = true -> In r (uv_queue t)) ->
             live r u = true -> In r (uv_queue u)) /\
  (no_orphan t -> no_orphan u).
Proof.
  intros Hwf Hstep.
  assert (Hsame : same_sends t u ->
            wf u /\
            (next_req t <= next_req u)%nat /\
            (forall r, account r u = account r t \/
                       (r = next_req t /\ account r u = 1%nat)) /\
            (forall r wrap payload,
               (r < next_req t)%nat ->
               carries r wrap payload t -> carries r wrap payload u) /\
            (forall r, (r < next_req t)%nat ->
                       (live r t = true -> In r (uv_queue t)) ->
                       live r u = true -> In r (uv_queue u)) /\
            (no_orphan t -> no_orphan u)).
  { intros Hs.
    destruct (same_sends_effect t u Hs)
      as (Hnext & Hacc & Hcar & Hlive & Horph).
    split; [exact (wf_same_sends t u Hs Hwf)|].
    split; [lia|]. split; [intros r; left; apply Hacc|].
    split; [intros r wrap payload _; apply Hcar|].
    split; [intros r _; apply Hlive | exact Horph]. }
  destruct Hstep as
    [os h address port flags fam v Hrun
    |o os h arg v Hrun
    |os h address iface m v Hrun
    |os h b offset length port address fam v Hrun
    |os h v Hrun
    |os h v Hrun
    |os h v Hrun
    |req st Hrun
    |h size nread addr flags e Hread Hrun].
  - apply Hsame. exact (DoBind_same_sends _ _ _ _ _ _ _ _ _ Hrun).
  - apply Hsame. exact (X_same_sends _ _ _ _ _ _ _ Hrun).
  - apply Hsame. exact (SetMembership_same_sends _ _ _ _ _ _ _ _ Hrun).
  - split; [exact (wf_DoSend _ _ _ _ _ _ _ _ _ _ _ Hwf Hrun)|].
    pose proof (wf_fresh_reqs t Hwf) as Hfresh.
    destruct (DoSend_returns_inv _ _ _ _ _ _ _ _ _ _ _ Hfresh Hrun)
      as [Hguard Hfam].
    destruct os as [|e].
    + rewrite DoSend_accepted in Hrun by assumption.
      injection Hrun as <- <-.
      split; [simpl; lia|]. split; [|split; [|split]].
      * intros r. destruct (Nat.eq_dec r (next_req t)) as [->|Hne].
        -- right. split; [reflexivity|]. apply account_sent, Hwf.
        -- left. unfold account, queued. simpl.
           rewrite count_occ_app. simpl.
           destruct (Nat.eq_dec (next_req t) r); [congruence|]. lia.
      * intros r wrap payload Hr [Hlive Hdone]. split; simpl.
        -- destruct (Nat.eqb_spec (next_req t) r); [lia | exact Hlive].
        -- exact Hdone.
      * intros r Hr Hheld. unfold live; simpl.
        destruct (Nat.eqb_spec (next_req t) r); [lia|].
        intros Hlive. apply in_or_app. left. apply Hheld, Hlive.
      * intros Horphan x [<-|Hx]; simpl; apply in_or_app.
        -- right. left. reflexivity.
        -- left. apply Horphan, Hx.
    + rewrite DoSend_refused in Hrun by assumption.
      injection Hrun as <- <-.
      split; [simpl; lia|]. split; [|split; [|split]].
      * intros r. left. reflexivity.
      * intros r wrap payload _ Hc. exact Hc.
      * intros r _ Hheld. exact Hheld.
      * intros Horphan. exact Horphan.
  - apply Hsame. exact (RecvStart_same_sends _ _ _ _ _ Hrun).
  - apply Hsame. exact (RecvStop_same_sends _ _ _ _ _ Hrun).
  - apply Hsame. exact (GetSockName_same_sends _ _ _ _ _ Hrun).
  - pose proof (queue_ok_of_wf t Hwf) as Hok.
    destruct (complete_send_step req st t Hok)
      as (u1 & Hrun1 & _ & _ & Hnext & _ & Hacc & Hcar & Horph & Hwf1).
    pose proof Hrun as Hrun'.
    rewrite Hrun1 in Hrun'. injection Hrun' as ->.
    split; [exact (Hwf1 Hwf)|]. split; [lia|].
    split; [intros r; left; apply Hacc|].
    split; [intros r wrap payload _; apply Hcar|].
    split; [|exact Horph].
    intros r _. exact (complete_send_live req st t u r Hok Hrun).
  - split; [exact (wf_recv_event _ _ _ _ _ _ _ _ Hrun Hwf)|].
    destruct (recv_event_onmessage _ _ _ _ _ _ _ _ Hrun)
      as (Hnext & Hreqs & Hqueue & new & Hcalls & Hnew).
    split; [lia|]. split; [|split; [|split]].
    + intros r. left. unfold account, queued.
      rewrite Hcalls, Hqueue, completions_app by exact Hnew. reflexivity.
    + intros r wrap payload _ [Hlive Hdone]. split.
      * rewrite Hreqs. exact Hlive.
      * intros c Hc Hcomp. rewrite Hcalls in Hc. apply in_app_or in Hc.
        destruct Hc as [Hc|Hc]; [exact (Hdone c Hc Hcomp)|].
        unfold is_completion_of in Hcomp. rewrite (Hnew c Hc) in Hcomp.
        discriminate.
    + intros r _. unfold live. rewrite Hreqs, Hqueue. auto.
    + intros Horphan x Hx. rewrite Hqueue. apply Horphan.
      rewrite <- Hreqs. exact Hx.
Qed.

(** Any number of steps, in any order. *)
Lemma steps_effect (s t : State) :
  wf s -> steps s t ->
  wf t /\
  (next_req s <= next_req t)%nat /\
  (forall r, (r < next_req s)%nat -> account r t = account r s) /\
  (forall r wrap payload,
     (r < next_req s)%nat ->
     carries r wrap payload s -> carries r wrap payload t) /\
  (forall r, (r < next_req s)%nat ->
             (live r s = true -> In r (uv_queue s)) ->
             live r t = true -> In r (uv_queue t)).
Proof.
  intros Hwf. induction 1 as [|t u _ IH Hstep].
  - split; [exact Hwf|]. split; [lia|]. auto.
  - destruct IH as (Hwft & Hnext & Hacc & Hcar & Hlive).
    destruct (step_effect t u Hwft Hstep)
      as (Hwfu & Hnext' & Hacc' & Hcar' & Hlive' & _).
    split; [exact Hwfu|]. split; [lia|]. split; [|split].
    + intros r Hr. destruct (Hacc' r) as [Heq|[Heq _]]; [|lia].
      rewrite Heq. apply Hacc, Hr.
    + intros r wrap payload Hr Hc.
      apply Hcar'; [lia|]. apply Hcar; assumption.
    + intros r Hr Hheld. apply Hlive'; [lia|].
      apply Hlive; assumption.
Qed.

End Steps.

(** ** A send and its completion, whatever happens in between *)

Section Schedules.

Import UDPWrap Loop.

Lemma steps_trans (s t u : State) : steps s t -> steps t u -> steps s u.
Proof.
  intros Hst. induction 1 as [|u v _ IH Hstep]; [exact Hst|].
  exact (steps_next s u v IH Hstep).
Qed.

(** A schedule of completions is a sequence of steps. *)
Lemma run_completions_steps sch :
  forall s u, run_completions sch s = Ret (tt, u) -> steps s u.
Proof.
  induction sch as [|[req st] sch IH]; intros s u; simpl.
  - unfold ret. intros [= <-]. apply steps_refl.
  - unfold bind.
    destruct (complete_send req st s) as [[[] s1]|s1] eqn:Hone;
      [|discriminate].
    intros Hrun. apply (steps_trans s s1 u); [|exact (IH s1 u Hrun)].
    apply (steps_next s s s1 (steps_refl s)).
    exact (step_completion s s1 req st Hone).
Qed.

(** Once libuv has reported the completion of a request, the request is
    not in its queue any more. *)
Lemma run_completions_served sch s r :
  wf s ->
  In r (map fst sch) ->
  exists u,
    run_completions sch s = Ret (tt, u) /\ steps s u /\
    account r u = account r s /\ queued r u = 0%nat.
Proof.
  intros Hwf Hin.
  destruct (run_completions_spec sch s (queue_ok_of_wf s Hwf))
    as (u & Hrun & _ & Hq & Hacc & _).
  exists u. split; [exact Hrun|].
  split; [exact (run_completions_steps sch s u Hrun)|].
  split; [apply Hacc|].
  unfold queued. apply count_occ_not_In.
  intros Hu. apply Hq in Hu. destruct Hu as [_ Hnot]. exact (Hnot Hin).
Qed.

(** A request libuv holds, in a state that follows the [send] that made
    it: its completion, reported now. *)
Lemma complete_send_held r st wrap payload t :
  wf t ->
  carries r wrap payload t ->
  In r (uv_queue t) ->
  live r t = true /\
  exists u,
    complete_send r st t = Ret (tt, u) /\
    calls u =
      calls t ++
      [mk_Callback (VReq r) oncomplete_sym
         [VInt (status_of st); VSock wrap; VReq r; payload] (errno u)] /\
    (forall e, st = OsFail e -> errno u = Some e) /\
    (st = OsOk -> errno u = errno t) /\
    live r u = false /\ queued r u = 0%nat.
Proof.
  intros Hwf [Hheld _] Hin.
  destruct (queue_ok_of_wf t Hwf) as [Hready Hnodup].
  destruct (req_ready_live t r (Hready r Hin)) as (w & h & Hw & Hh).
  destruct (Hheld w Hw) as [Hwrap Hp].
  split; [unfold live; rewrite Hw; reflexivity|].
  exists (completed_state r st w wrap t).
  split; [exact (complete_send_queued r st t w wrap Hin Hw Hwrap)|].
  destruct (NoDup_remove_queued r _ Hnodup) as [_ Hgone].
  unfold completed_state. rewrite Hp.
  destruct st as [|e]; simpl;
    (split; [reflexivity|]);
    (split; [intros e' [= <-] || intros e' [=]; reflexivity|]);
    (split; [intros [=] || intros _; reflexivity|]);
    (split; [unfold live; simpl; rewrite find_req_remove_same; reflexivity|]);
    unfold queued; simpl; apply count_occ_not_In; exact Hgone.
Qed.

End Schedules.

(** C1, as the code has it.  A call of [send] whose offset and length
    (non-negative numbers below 2^32, as [Uint32Value] returns them) satisfy
    [offset + length <= size of the payload] and, as the first assertion of
    [DoSend] demands, [offset < size of the payload], has exactly one of two
    outcomes.  Either it returns the request handle and the request is live
    and queued once; then, whatever methods, completions of any request in
    any order and receive events follow, the request is either still held
    by libuv or has had exactly one completion delivered, never both and
    never neither, every completion delivered for it carries the payload
    object passed to [send], and any schedule in which libuv reports the
    request ends with exactly one completion delivered.  Or it returns
    null, the request is destroyed and not queued, and whatever follows no
    completion for it is ever delivered. *)
Theorem send_exactly_one_outcome :
  forall os wrap b offset length port address fam s,
    wf s ->
    family_supported fam = true ->
    0 <= offset -> 0 <= length ->
    offset < buf_length b ->
    offset + length <= buf_length b ->
    buf_length b < 2 ^ SIZE_BITS ->
    exists v s',
      UDPWrap.DoSend os wrap b offset length port address fam s = Ret (v, s')
      /\ calls s' = calls s
      /\ ((v = VReq (next_req s) /\ os = OsOk /\
           live (next_req s) s' = true /\
           queued (next_req s) s' = 1%nat /\
           forall t, steps s' t ->
             (completions (next_req s) (calls t)
              + queued (next_req s) t = 1)%nat /\
             (forall c, In c (calls t) ->
                is_completion_of (next_req s) c = true ->
                exists status,
                  cb_argv c =
                    [VInt status; VSock wrap; VReq (next_req s); VBuffer b])
             /\
             (forall sch, In (next_req s) (map fst sch) ->
                exists u,
                  Loop.run_completions sch t = Ret (tt, u) /\
                  steps t u /\
                  completions (next_req s) (calls u) = 1%nat /\
                  queued (next_req s) u = 0%nat))
          \/
          (v = VNull /\ os <> OsOk /\
           live (next_req s) s' = false /\
           queued (next_req s) s' = 0%nat /\
           forall t, steps s' t ->
             completions (next_req s) (calls t) = 0%nat /\
             queued (next_req s) t = 0%nat)).
Proof.
  intros os wrap b offset length port address fam s Hwf Hfam Ho Hl Hlt Hsum Hb.
  pose proof (send_guard_valid b offset length Ho Hl Hlt Hsum Hb) as Hguard.
  pose proof (wf_fresh_reqs s Hwf) as Hfresh.
  destruct os as [|e].
  - pose proof (DoSend_accepted wrap b offset length port address fam s
                  Hguard Hfam Hfresh) as Hrun.
    exists (VReq (next_req s)),
      (sent_state wrap b offset length port address fam s).
    split; [exact Hrun|]. split; [reflexivity|]. left.
    pose proof (account_sent wrap b offset length port address fam s Hwf)
      as Hacc.
    pose proof (wf_DoSend _ _ _ _ _ _ _ _ _ _ _ Hwf Hrun) as Hwf'.
    split; [reflexivity|]. split; [reflexivity|].
    split; [unfold live; simpl; rewrite Nat.eqb_refl; reflexivity|].
    split.
    { unfold account, completions in Hacc. simpl in Hacc.
      rewrite wf_fresh_calls in Hacc by exact Hwf. exact Hacc. }
    intros t Ht.
    destruct (steps_effect _ t Hwf' Ht) as (Hwft & _ & Hkept & Hcar & _).
    specialize (Hkept (next_req s) (Nat.lt_succ_diag_r _)).
    rewrite Hacc in Hkept.
    split; [exact Hkept|]. split.
    + intros c Hc Hcomp.
      destruct (Hcar _ _ _ (Nat.lt_succ_diag_r _)
                  (carries_sent wrap b offset length port address fam s Hwf))
        as [_ Hcalls].
      destruct (Hcalls c Hc Hcomp) as (status & Hargv & _).
      exists status. exact Hargv.
    + intros sch Hin.
      destruct (run_completions_served sch t (next_req s) Hwft Hin)
        as (u & Hdone & Hsteps & Hsame & Hq).
      exists u. split; [exact Hdone|]. split; [exact Hsteps|].
      split; [|exact Hq].
      rewrite Hkept in Hsame. unfold account in Hsame. lia.
  - pose proof (DoSend_refused e wrap b offset length port address fam s
                  Hguard Hfam Hfresh) as Hrun.
    exists VNull, (refused_state e wrap b offset length port address fam s).
    split; [exact Hrun|]. split; [reflexivity|]. right.
    pose proof (account_refused e wrap b offset length port address fam s Hwf)
      as Hacc.
    pose proof (wf_DoSend _ _ _ _ _ _ _ _ _ _ _ Hwf Hrun) as Hwf'.
    split; [reflexivity|]. split; [discriminate|].
    split; [unfold live; simpl; rewrite find_req_fresh by exact Hfresh;
            reflexivity|].
    split; [unfold account in Hacc; lia|].
    intros t Ht.
    destruct (steps_effect _ t Hwf' Ht) as (_ & _ & Hkept & _).
    specialize (Hkept (next_req s) (Nat.lt_succ_diag_r _)).
    rewrite Hacc in Hkept. unfold account in Hkept. lia.
Qed.

Lemma send_exactly_one_outcome_witness :
  exists v s',
    UDPWrap.Send OsOk 0 (mk_Buffer 7 5) 1 4 4000 (VStr "127.0.0.1")
      initial_state = Ret (v, s') /\
    v = VReq 0 /\
    exists u,
      Loop.run_completions [(0%nat, OsOk)] s' = Ret (tt, u) /\
      completions 0 (calls u) = 1%nat.
Proof.
  destruct (send_exactly_one_outcome OsOk 0 (mk_Buffer 7 5) 1 4 4000
              (VStr "127.0.0.1") AF_INET initial_state)
    as (v & s' & Hrun & _ & [Hstarted | Hrefused]);
    try reflexivity; try (simpl; lia).
  - destruct Hstarted as (Hv & _ & _ & _ & Hlater).
    exists v, s'. split; [exact Hrun|]. split; [exact Hv|].
    destruct (Hlater s' (steps_refl s')) as (_ & _ & Hsch).
    destruct (Hsch [(0%nat, OsOk)] (or_introl eq_refl))
      as (u & Hdone & _ & Hone & _).
    exists u. split; [exact Hdone | exact Hone].
  - destruct Hrefused as (_ & Hos & _). exfalso. apply Hos. reflexivity.
Defined.

(** C1, as stated, fails: offset 5 and length 0 on a payload of 5 bytes
    satisfy [offset + length <= size], and [send] neither returns a handle
    nor fails with null: the first assertion of [DoSend] aborts. *)
Lemma send_at_end_of_payload_aborts :
  5 + 0 <= buf_length (mk_Buffer 7 5) /\
  ~ (exists v s',
       UDPWrap.Send OsOk 0 (mk_Buffer 7 5) 5 0 4000 (VStr "127.0.0.1")
         initial_state = Ret (v, s')).
Proof.
  split; [simpl; lia|].
  intros (v & s' & H). discriminate H.
Qed.

(** C5.  The completion of a send.  [OnSend] makes exactly one
    [oncomplete] callback, whose arguments are the status, the socket, the
    request and the payload object the request holds; when the status is
    not 0 the last error has been set, from libuv's last error, before the
    callback is made; the request is destroyed right after.  And a [send]
    that libuv accepts makes such a request, holding the payload object
    passed to [send]: whatever methods, completions of any request in any
    order and receive events follow, the request is still held by libuv or
    has had exactly one completion delivered, never both and never
    neither; every completion delivered for it carries that payload object
    and, with a status other than 0, an error; as long as libuv holds the
    request it is alive, and its completion, reported at any moment with
    any outcome, delivers exactly the callback above and destroys it; once
    it is completed it is not alive any more. *)
Theorem send_completion_contract :
  (forall req status s w wrap payload,
     find_req req (reqs s) = Some w ->
     req_handle w = Some wrap ->
     hidden_buffer w = Some payload ->
     exists s',
       UDPWrap.OnSend req status s = Ret (tt, s') /\
       calls s' =
         calls s ++
         [mk_Callback (VReq req) oncomplete_sym
            [VInt status; VSock wrap; VReq req; payload] (errno s')] /\
       (status <> 0 -> errno s' = Some (uv_last s)) /\
       (status = 0 -> errno s' = errno s) /\
       live req s' = false)
  /\
  (forall wrap b offset length port address fam s,
     wf s ->
     family_supported fam = true ->
     send_guard b offset length = true ->
     exists s1,
       UDPWrap.DoSend OsOk wrap b offset length port address fam s
         = Ret (VReq (next_req s), s1) /\
       calls s1 = calls s /\
       queued (next_req s) s1 = 1%nat /\
       forall t, steps s1 t ->
         (completions (next_req s) (calls t)
          + queued (next_req s) t = 1)%nat /\
         (forall c, In c (calls t) ->
            is_completion_of (next_req s) c = true ->
            exists status,
              cb_argv c =
                [VInt status; VSock wrap; VReq (next_req s); VBuffer b] /\
              (status <> 0 -> cb_errno c <> None)) /\
         (queued (next_req s) t = 1%nat ->
          live (next_req s) t = true /\
          forall st, exists u,
            Loop.complete_send (next_req s) st t = Ret (tt, u) /\
            calls u =
              calls t ++
              [mk_Callback (VReq (next_req s)) oncomplete_sym
                 [VInt (status_of st); VSock wrap; VReq (next_req s);
                  VBuffer b]
                 (errno u)] /\
            (forall e, st = OsFail e -> errno u = Some e) /\
            (st = OsOk -> errno u = errno t) /\
            live (next_req s) u = false /\
            queued (next_req s) u = 0%nat) /\
         (queued (next_req s) t = 0%nat -> live (next_req s) t = false)).
Proof.
  split.
  - intros req status s w wrap payload Hw Hh Hp.
    rewrite (OnSend_live req status s w wrap Hw Hh), Hp.
    eexists. split; [reflexivity|]. simpl.
    split; [reflexivity|].
    unfold errno_at_completion.
    split; [|split].
    + intros Hst. destruct (Z.eqb_spec status 0); [contradiction|reflexivity].
    + intros ->. reflexivity.
    + unfold live; simpl. rewrite find_req_remove_same. reflexivity.
  - intros wrap b offset length port address fam s Hwf Hfam Hguard.
    pose proof (wf_fresh_reqs s Hwf) as Hfresh.
    pose proof (DoSend_accepted wrap b offset length port address fam s
                  Hguard Hfam Hfresh) as Hrun.
    pose proof (account_sent wrap b offset length port address fam s Hwf)
      as Hacc.
    pose proof (wf_DoSend _ _ _ _ _ _ _ _ _ _ _ Hwf Hrun) as Hwf'.
    exists (sent_state wrap b offset length port address fam s).
    split; [exact Hrun|]. split; [reflexivity|]. split.
    { unfold account, completions in Hacc. simpl in Hacc.
      rewrite wf_fresh_calls in Hacc by exact Hwf. exact Hacc. }
    intros t Ht.
    destruct (steps_effect _ t Hwf' Ht) as (Hwft & _ & Hkept & Hcar & Hlive).
    specialize (Hkept (next_req s) (Nat.lt_succ_diag_r _)).
    rewrite Hacc in Hkept.
    specialize (Hcar _ _ _ (Nat.lt_succ_diag_r _)
                  (carries_sent wrap b offset length port address fam s Hwf)).
    assert (Hheld : live (next_req s) t = true -> In (next_req s) (uv_queue t)).
    { apply Hlive; [apply Nat.lt_succ_diag_r|].
      intros _. simpl. apply in_or_app. right. left. reflexivity. }
    split; [exact Hkept|]. split; [exact (proj2 Hcar)|]. split.
    + intros Hq.
      assert (Hin : In (next_req s) (uv_queue t)).
      { apply (count_occ_In Nat.eq_dec). unfold queued in Hq. lia. }
      destruct (complete_send_held (next_req s) OsOk wrap (VBuffer b) t
                  Hwft Hcar Hin) as [Halive _].
      split; [exact Halive|]. intros st.
      exact (proj2 (complete_send_held (next_req s) st wrap (VBuffer b) t
                      Hwft Hcar Hin)).
    + intros Hq. destruct (live (next_req s) t) eqn:Halive; [|reflexivity].
      exfalso. specialize (Hheld eq_refl).
      apply (count_occ_In Nat.eq_dec) in Hheld. unfold queued in Hq. lia.
Qed.

Lemma send_completion_contract_witness :
  exists s1 u,
    UDPWrap.Send OsOk 3 (mk_Buffer 7 5) 1 4 4000 (VStr "127.0.0.1")
      initial_state = Ret (VReq 0, s1) /\
    Loop.complete_send 0 (OsFail (mk_uv_err UV_ETRANSMIT 111)) s1
      = Ret (tt, u) /\
    calls u =
      [mk_Callback (VReq 0) oncomplete_sym
         [VInt (-1); VSock 3; VReq 0; VBuffer (mk_Buffer 7 5)]
         (Some (mk_uv_err UV_ETRANSMIT 111))] /\
    live 0 u = false.
Proof.
  destruct send_completion_contract as (_ & Hchain).
  destruct (Hchain 3%nat (mk_Buffer 7 5) 1 4 4000 (VStr "127.0.0.1") AF_INET
              initial_state wf_initial_state eq_refl eq_refl)
    as (s1 & Hsend & Hcalls1 & Hq & Hlater).
  destruct (Hlater s1 (steps_refl s1)) as (_ & _ & Hheld & _).
  destruct (Hheld Hq) as [_ Hcomplete].
  destruct (Hcomplete (OsFail (mk_uv_err UV_ETRANSMIT 111)))
    as (u & Hrun & Hcalls & Herr & _ & Hdead & _).
  exists s1, u. split; [exact Hsend|]. split; [exact Hrun|].
  split; [|exact Hdead].
  rewrite Hcalls, Hcalls1, (Herr _ eq_refl). reflexivity.
Defined.

(** ** The invariants in every reachable state *)

Section Reachable.

Import UDPWrap Loop.

Ltac run_control :=
  unfold DoBind, X, SetMembership, RecvStart, RecvStop, GetSockName;
  unfold_uv; unfold_monad; simpl.

Lemma DoBind_same_slab os h address port flags fam s v s' :
  DoBind os h address port flags fam s = Ret (v, s') ->
  slab_allocator s' = slab_allocator s.
Proof.
  run_control.
  destruct fam as [| |n]; simpl; try discriminate;
    destruct (bound (handles s h)) as [a|]; simpl;
    try destruct (family_eqb (sa_family a) _); simpl;
    destruct os as [|e]; simpl; intros [= <- <-]; reflexivity.
Qed.

Lemma X_same_slab o os h arg s v s' :
  X (Uv.uv_udp_set_option o) os h arg s = Ret (v, s') ->
  slab_allocator s' = slab_allocator s.
Proof.
  run_control. destruct os as [|e]; simpl; intros [= <- <-]; reflexivity.
Qed.

Lemma SetMembership_same_slab os h address iface m s v s' :
  SetMembership os h address iface m s = Ret (v, s') ->
  slab_allocator s' = slab_allocator s.
Proof.
  run_control. destruct os as [|e]; simpl; intros [= <- <-]; reflexivity.
Qed.

Lemma RecvStart_same_slab os h s v s' :
  RecvStart os h s = Ret (v, s') -> slab_allocator s' = slab_allocator s.
Proof.
  run_control.
  destruct (recv_armed (handles s h)); simpl;
    [|destruct os as [|e]; simpl; [|destruct (is_EALREADY (code e)); simpl]];
    intros [= <- <-]; reflexivity.
Qed.

Lemma RecvStop_same_slab os h s v s' :
  RecvStop os h s = Ret (v, s') -> slab_allocator s' = slab_allocator s.
Proof.
  run_control. destruct os as [|e]; simpl; intros [= <- <-]; reflexivity.
Qed.

Lemma GetSockName_same_slab os h s v s' :
  GetSockName os h s = Ret (v, s') -> slab_allocator s' = slab_allocator s.
Proof.
  run_control.
  destruct (bound (handles s h)) as [a|]; simpl;
    destruct os as [|e]; simpl; intros [= <- <-]; reflexivity.
Qed.

Lemma DoSend_same_slab os h b offset length port address fam s v s' :
  wf s ->
  DoSend os h b offset length port address fam s = Ret (v, s') ->
  slab_allocator s' = slab_allocator s.
Proof.
  intros Hwf Hrun.
  pose proof (wf_fresh_reqs s Hwf) as Hfresh.
  destruct (DoSend_returns_inv _ _ _ _ _ _ _ _ _ _ _ Hfresh Hrun)
    as [Hguard Hfam].
  destruct os as [|e].
  - rewrite DoSend_accepted in Hrun by assumption.
    injection Hrun as <- <-. reflexivity.
  - rewrite DoSend_refused in Hrun by assumption.
    injection Hrun as <- <-. reflexivity.
Qed.

Lemma complete_send_same_slab req st s s' :
  wf s ->
  complete_send req st s = Ret (tt, s') ->
  slab_allocator s' = slab_allocator s.
Proof.
  intros Hwf Hrun.
  destruct (complete_send_step req st s (queue_ok_of_wf s Hwf))
    as (s1 & Hrun1 & _ & _ & _ & Hslab & _).
  rewrite Hrun in Hrun1. injection Hrun1 as <-. exact Hslab.
Qed.

(** A receive event that reads no more than its buffer holds keeps the
    slab within its bounds. *)
Lemma recv_event_slab_ok h size nread addr flags e s s' :
  nread <= to_uint size ->
  recv_event h size nread addr flags e s = Ret (tt, s') ->
  slab_ok (slab_allocator s) = true ->
  slab_ok (slab_allocator s') = true.
Proof.
  intros Hread Hrun Hok.
  assert (Hsize : 0 <= to_uint size < 2 ^ 32)
    by (unfold to_uint; apply Z.mod_pos_bound; lia).
  assert (Hkept : 0 <= to_uint (if nread <? 0 then 0 else nread)
                  <= to_uint size).
  { destruct (Z.ltb_spec nread 0); [rewrite to_uint_small; lia|].
    rewrite to_uint_small; lia. }
  destruct (slab_carve_and_shrink h (to_uint size) _ (slab_allocator s)
              Hok Hkept) as (parent & a' & Hshrink & _ & _ & _ & Hok').
  revert Hrun. rewrite recv_event_unfold.
  unfold OnRecv, Shrink; unfold_monad.
  set (a1 := snd (slab_Allocate h (to_uint size) (slab_allocator s))) in *.
  set (s0 := if nread <? 0 then set_uv_last _ _ else _).
  assert (Hs0 : slab_allocator s0 = a1)
    by (unfold s0; destruct (nread <? 0); reflexivity).
  simpl. rewrite Hs0, Hshrink.
  destruct (nread =? 0); [intros [= <-]; exact Hok'|].
  destruct (nread <? 0); [intros [= <-]; exact Hok'|].
  destruct (ptr_diff _ _) as [d|]; [|discriminate].
  intros [= <-]; exact Hok'.
Qed.

(** The invariant of the send path and the bounds of the slab hold in
    every state the process reaches. *)
Theorem reachable_invariant (s : State) :
  reachable s -> wf s /\ slab_ok (slab_allocator s) = true.
Proof.
  induction 1 as [|s s' _ [Hwf Hok] Hstep].
  - split; reflexivity.
  - split; [exact (proj1 (step_effect s s' Hwf Hstep))|].
    destruct Hstep as
      [os h address port flags fam v Hrun
      |o os h arg v Hrun
      |os h address iface m v Hrun
      |os h b offset length port address fam v Hrun
      |os h v Hrun
      |os h v Hrun
      |os h v Hrun
      |req st Hrun
      |h size nread addr flags e Hread Hrun].
    + rewrite (DoBind_same_slab _ _ _ _ _ _ _ _ _ Hrun). exact Hok.
    + rewrite (X_same_slab _ _ _ _ _ _ _ Hrun). exact Hok.
    + rewrite (SetMembership_same_slab _ _ _ _ _ _ _ _ Hrun). exact Hok.
    + rewrite (DoSend_same_slab _ _ _ _ _ _ _ _ _ _ _ Hwf Hrun). exact Hok.
    + rewrite (RecvStart_same_slab _ _ _ _ _ Hrun). exact Hok.
    + rewrite (RecvStop_same_slab _ _ _ _ _ Hrun). exact Hok.
    + rewrite (GetSockName_same_slab _ _ _ _ _ Hrun). exact Hok.
    + rewrite (complete_send_same_slab _ _ _ _ Hwf Hrun). exact Hok.
    + exact (recv_event_slab_ok _ _ _ _ _ _ _ _ Hread Hrun Hok).
Qed.

(** In every reachable state every live request is queued, and no request
    has more than one completion, delivered or due. *)
Lemma reachable_requests (s : State) :
  reachable s ->
  no_orphan s /\ forall r, (account r s <= 1)%nat.
Proof.
  induction 1 as [|s s' Hreach [Horphan Hacc] Hstep].
  - split; [intros e []|]. intros r. unfold account, completions, queued.
    simpl. lia.
  - destruct (reachable_invariant s Hreach) as [Hwf _].
    destruct (step_effect s s' Hwf Hstep)
      as (_ & _ & Hacc' & _ & _ & Horphan').
    split; [exact (Horphan' Horphan)|].
    intros r. destruct (Hacc' r) as [Heq|[_ Heq]]; rewrite Heq; [|lia].
    apply Hacc.
Qed.

End Reachable.

(** ** The methods as a whole *)

Ltac run_method :=
  unfold invoke, UDPWrap.Bind, UDPWrap.Bind6, UDPWrap.Send, UDPWrap.Send6,
    UDPWrap.AddMembership, UDPWrap.DropMembership, UDPWrap.SetTTL,
    UDPWrap.SetBroadcast, UDPWrap.SetMulticastTTL,
    UDPWrap.SetMulticastLoopback, UDPWrap.DoBind, UDPWrap.X,
    UDPWrap.SetMembership, UDPWrap.DoSend, UDPWrap.RecvStart,
    UDPWrap.RecvStop, UDPWrap.GetSockName,
    new_SendWrap, SetHiddenValue_buffer, Dispatched, delete_SendWrap,
    update_req;
  unfold_uv; unfold_monad; simpl.

Ltac split_cases :=
  repeat match goal with
    | |- context [match bound ?u with _ => _ end] =>
        destruct (bound u) as [?a|]; simpl
    | |- context [if family_eqb ?a ?b then _ else _] =>
        destruct (family_eqb a b); simpl
    | |- context [if recv_armed ?u then _ else _] =>
        destruct (recv_armed u); simpl
    | |- context [if ?a <? ?b then _ else _] =>
        destruct (a <? b); simpl
    | |- context [if ?a <=? ?b then _ else _] =>
        destruct (a <=? b); simpl
    | |- context [is_EALREADY ?c] =>
        destruct (is_EALREADY c); simpl
    end.

(** What a method that returns has done to the state, besides what libuv
    did to the socket and to its own last error: at most the last error is
    set, to libuv's last error, and this happens exactly when the result is
    a failure and the method is not [recvStop]. *)
Lemma invoke_errno os wrap m s v s' :
  invoke os wrap m s = Ret (v, s') ->
  errno s' =
    (if is_failure v && negb (is_recvStop m)
     then Some (uv_last s') else errno s).
Proof.
  destruct m; run_method; split_cases;
    destruct os as [|e]; simpl; split_cases;
    try discriminate; intros [= <- <-]; reflexivity.
Qed.

(** X1.  Whenever a method other than [recvStop] returns a failure result
    (a non-zero integer, [null], or [false]), the last error has been set,
    to libuv's last error. *)
Theorem method_failure_sets_errno :
  forall os wrap m s v s',
    invoke os wrap m s = Ret (v, s') ->
    is_recvStop m = false ->
    is_failure v = true ->
    errno s' = Some (uv_last s').
Proof.
  intros os wrap m s v s' Hrun Hm Hv.
  rewrite (invoke_errno os wrap m s v s' Hrun), Hv, Hm. reflexivity.
Qed.

Lemma method_failure_sets_errno_witness :
  exists s',
    invoke (OsFail (mk_uv_err UV_EOPTION 22)) 4 (m_setTTL 300) initial_state
      = Ret (VInt (-1), s') /\
    errno s' = Some (mk_uv_err UV_EOPTION 22).
Proof.
  eexists. split; [reflexivity|].
  apply (method_failure_sets_errno (OsFail (mk_uv_err UV_EOPTION 22)) 4
           (m_setTTL 300) initial_state (VInt (-1)));
    reflexivity.
Defined.

(** X2.  A method that returns a result that is not a failure leaves the
    last error as it was: success never clears or overwrites the error of
    an earlier failure. *)
Theorem method_success_keeps_errno :
  forall os wrap m s v s',
    invoke os wrap m s = Ret (v, s') ->
    is_failure v = false ->
    errno s' = errno s.
Proof.
  intros os wrap m s v s' Hrun Hv.
  rewrite (invoke_errno os wrap m s v s' Hrun), Hv. reflexivity.
Qed.

Lemma method_success_keeps_errno_witness :
  exists s',
    invoke OsOk 4 (m_bind (VStr "0.0.0.0") 0 0)
      (set_errno (Some (mk_uv_err UV_EOPTION 22)) initial_state)
      = Ret (VInt 0, s') /\
    errno s' = Some (mk_uv_err UV_EOPTION 22).
Proof.
  eexists. split; [reflexivity|].
  apply (method_success_keeps_errno OsOk 4 (m_bind (VStr "0.0.0.0") 0 0)
           (set_errno (Some (mk_uv_err UV_EOPTION 22)) initial_state)
           (VInt 0));
    reflexivity.
Defined.

(** X3.  A method that returns has made exactly one call to libuv, on the
    handle of the socket it was called on, whether the call succeeded or
    not: no method retries, and none reaches another socket. *)
Theorem method_calls_libuv_once :
  forall os wrap m s v s',
    invoke os wrap m s = Ret (v, s') ->
    exists c, uv_calls s' = uv_calls s ++ [c] /\ uv_call_handle c = wrap.
Proof.
  intros os wrap m s v s'.
  destruct m; run_method; split_cases;
    destruct os as [|e]; simpl; split_cases;
    try discriminate; intros [= <- <-]; simpl; eauto.
Qed.

Lemma method_calls_libuv_once_witness :
  exists s' c,
    invoke (OsFail (mk_uv_err UV_ETRANSMIT 101)) 4
      (m_send (mk_Buffer 7 5) 0 5 9000 (VStr "10.0.0.9")) initial_state
      = Ret (VNull, s') /\
    uv_calls s' = [c] /\ uv_call_handle c = 4%nat.
Proof.
  destruct (method_calls_libuv_once (OsFail (mk_uv_err UV_ETRANSMIT 101)) 4
              (m_send (mk_Buffer 7 5) 0 5 9000 (VStr "10.0.0.9"))
              initial_state VNull
              (refused_state (mk_uv_err UV_ETRANSMIT 101) 4 (mk_Buffer 7 5)
                 0 5 9000 (VStr "10.0.0.9") AF_INET initial_state)
              eq_refl)
    as (c & Hcalls & Hh).
  exists (refused_state (mk_uv_err UV_ETRANSMIT 101) 4 (mk_Buffer 7 5)
            0 5 9000 (VStr "10.0.0.9") AF_INET initial_state), c.
  split; [reflexivity|]. split; assumption.
Defined.

(** X4.  No method delivers a notification before it returns: the
    [oncomplete] and [onmessage] callbacks are made by [OnSend] and
    [OnRecv] only.  No method touches the slab allocator either. *)
Theorem method_never_calls_back :
  forall os wrap m s v s',
    invoke os wrap m s = Ret (v, s') ->
    calls s' = calls s /\ slab_allocator s' = slab_allocator s.
Proof.
  intros os wrap m s v s'.
  destruct m; run_method; split_cases;
    destruct os as [|e]; simpl; split_cases;
    try discriminate; intros [= <- <-]; simpl; auto.
Qed.

Lemma method_never_calls_back_witness :
  exists s',
    invoke OsOk 4 (m_send (mk_Buffer 7 5) 0 5 9000 (VStr "10.0.0.9"))
      initial_state = Ret (VReq 0, s') /\
    calls s' = [].
Proof.
  exists (sent_state 4 (mk_Buffer 7 5) 0 5 9000 (VStr "10.0.0.9") AF_INET
            initial_state).
  split; [reflexivity|].
  apply (method_never_calls_back OsOk 4
           (m_send (mk_Buffer 7 5) 0 5 9000 (VStr "10.0.0.9"))
           initial_state (VReq 0)).
  reflexivity.
Defined.

(** X5.  A method called by its name on a socket, with any list of
    arguments, aborts the process exactly when one of its assertions fails:
    on the number of arguments (3 for [bind] and [bind6], 1 for the four
    setters, 2 for the membership methods, 5 for [send] and [send6]), on
    the first argument of [send] being a [Buffer], and on the two bounds of
    the converted offset and length.  It then aborts in the state it was called in.  When the
    assertions hold it returns, whatever the arguments convert to and
    whatever libuv answers; [recvStart], [recvStop] and [getsockname]
    assert nothing, and the entry points never reach the "unexpected
    address family" branch of [DoBind] and [DoSend]. *)
Theorem call_aborts_iff_assertion_fails :
  forall ToInteger os wrap name args s,
    (asserted ToInteger name args = true ->
     exists v s', call ToInteger os wrap name args s = Ret (v, s')) /\
    (asserted ToInteger name args = false ->
     call ToInteger os wrap name args s = Aborted s).
Proof.
  intros ToInteger os wrap name args s.
  destruct name;
    unfold call, asserted, DoBind_args, X_args, SetMembership_args,
      DoSend_args, HasInstance, send_guard;
    try (destruct (Nat.eqb (List.length args) _); simpl);
    try (destruct (arg args 0); simpl);
    run_method; split_cases;
    destruct os as [|e]; simpl; split_cases;
    (split; intros H; try discriminate H;
     try reflexivity; do 2 eexists; reflexivity).
Qed.

Lemma call_aborts_iff_assertion_fails_witness :
  call (fun v => match v with VInt z => z | _ => 0 end) OsOk 4 n_setTTL []
    initial_state = Aborted initial_state /\
  call (fun v => match v with VInt z => z | _ => 0 end) OsOk 4 n_send
    [VStr "hello"; VInt 0; VInt 5; VInt 9000; VStr "10.0.0.9"]
    initial_state = Aborted initial_state /\
  exists v s',
    call (fun v => match v with VInt z => z | _ => 0 end) OsOk 4 n_send
      [VBuffer (mk_Buffer 7 5); VInt 0; VInt 5; VInt 9000; VStr "10.0.0.9"]
      initial_state = Ret (v, s').
Proof.
  split; [|split].
  - apply (proj2 (call_aborts_iff_assertion_fails _ OsOk 4 n_setTTL []
                    initial_state)).
    reflexivity.
  - apply (proj2 (call_aborts_iff_assertion_fails _ OsOk 4 n_send
                    [VStr "hello"; VInt 0; VInt 5; VInt 9000;
                     VStr "10.0.0.9"] initial_state)).
    reflexivity.
  - apply (proj1 (call_aborts_iff_assertion_fails _ OsOk 4 n_send
                    [VBuffer (mk_Buffer 7 5); VInt 0; VInt 5; VInt 9000;
                     VStr "10.0.0.9"] initial_state)).
    reflexivity.
Defined.

(** ** The arguments of send and bind *)

Lemma Uint32Value_wrap (z k : Z) : Uint32Value (z + 2 ^ 32 * k) = Uint32Value z.
Proof.
  unfold Uint32Value. rewrite Z.mul_comm. apply Z_mod_plus_full.
Qed.

Lemma Int32Value_wrap (z k : Z) : Int32Value (z + 2 ^ 32 * k) = Int32Value z.
Proof.
  unfold Int32Value.
  replace (z + 2 ^ 32 * k + 2 ^ 31) with (z + 2 ^ 31 + k * 2 ^ 32) by ring.
  rewrite Z_mod_plus_full. reflexivity.
Qed.

Lemma port_wrap (p k : Z) :
  to_ushort (Uint32Value (p + 2 ^ 16 * k)) = to_ushort (Uint32Value p).
Proof.
  unfold to_ushort, Uint32Value.
  assert (Hdiv : (2 ^ 16 | 2 ^ 32)) by (exists (2 ^ 16); reflexivity).
  rewrite !(Z.mod_mod_divide _ _ _ Hdiv).
  rewrite Z.mul_comm. apply Z_mod_plus_full.
Qed.

(** The one call [DoSend] makes to libuv, when it returns. *)
Lemma DoSend_uv_call os wrap b offset length port address fam s v s' :
  UDPWrap.DoSend os wrap b offset length port address fam s = Ret (v, s') ->
  send_guard b offset length = true /\
  uv_calls s' =
    uv_calls s ++
    [UvSend (next_req s) wrap (send_buf b offset length) 1
       (send_addr fam address port)].
Proof.
  unfold send_guard, send_buf, send_addr. run_method.
  destruct (_ <? _); simpl; [|discriminate].
  destruct (_ <=? _); simpl; [|discriminate].
  destruct fam as [| |n]; simpl; try discriminate;
    destruct os as [|e]; simpl; intros [= <- <-]; simpl; auto.
Qed.

(** X6.  When [send] reaches libuv, the slice it hands over lies inside the
    payload: it starts at the converted offset, strictly before the end of
    the payload, and ends at or before it.  This is one buffer, on the
    socket [send] was called on. *)
Theorem send_slice_within_payload :
  forall os wrap b offset length port address fam s v s',
    0 <= buf_length b < 2 ^ SIZE_BITS ->
    UDPWrap.DoSend os wrap b offset length port address fam s = Ret (v, s') ->
    exists req buf addr,
      uv_calls s' = uv_calls s ++ [UvSend req wrap buf 1 addr] /\
      blk (base buf) = buf_id b /\
      off (base buf) = Uint32Value offset /\
      len buf = Uint32Value length /\
      0 <= off (base buf) < buf_length b /\
      0 <= len buf /\
      off (base buf) + len buf <= buf_length b.
Proof.
  intros os wrap b offset length port address fam s v s' Hb Hrun.
  destruct (DoSend_uv_call _ _ _ _ _ _ _ _ _ _ _ Hrun) as [Hguard Hcalls].
  exists (next_req s), (send_buf b offset length),
    (send_addr fam address port).
  split; [exact Hcalls|].
  unfold send_guard, Buffer_Length, size_sub in Hguard.
  rewrite !to_size_t_uint32 in Hguard.
  apply andb_prop in Hguard. destruct Hguard as [Hlt Hle].
  apply Z.ltb_lt in Hlt. apply Z.leb_le in Hle.
  pose proof (Uint32Value_range offset) as Ho.
  pose proof (Uint32Value_range length) as Hl.
  rewrite Z.mod_small in Hle by (unfold SIZE_BITS in *; lia).
  unfold send_buf, uv_buf_init, ptr_add, Buffer_Data; simpl.
  rewrite !to_size_t_uint32.
  repeat split; lia.
Qed.

Lemma send_slice_within_payload_witness :
  exists s' req buf addr,
    UDPWrap.Send OsOk 4 (mk_Buffer 7 10) 2 8 9000 (VStr "10.0.0.9")
      initial_state = Ret (VReq 0, s') /\
    uv_calls s' = [UvSend req 4 buf 1 addr] /\
    off (base buf) + len buf <= 10.
Proof.
  destruct (send_slice_within_payload OsOk 4 (mk_Buffer 7 10) 2 8 9000
              (VStr "10.0.0.9") AF_INET initial_state (VReq 0)
              (sent_state 4 (mk_Buffer 7 10) 2 8 9000 (VStr "10.0.0.9")
                 AF_INET initial_state))
    as (req & buf & addr & Hcalls & _ & _ & _ & _ & _ & Hend);
    [simpl; lia | reflexivity |].
  exists (sent_state 4 (mk_Buffer 7 10) 2 8 9000 (VStr "10.0.0.9")
            AF_INET initial_state), req, buf, addr.
  split; [reflexivity|]. split; [exact Hcalls | exact Hend].
Defined.

(** X7.  [send] reads its offset and length modulo 2^32 and its port modulo
    2^16, without a check: arguments that differ by multiples of 2^32 (of
    2^16 for the port) give the same call, with the same result and the same
    state. *)
Theorem send_arguments_wrap :
  forall os wrap b offset length port address fam s i j k,
    UDPWrap.DoSend os wrap b (offset + 2 ^ 32 * i) (length + 2 ^ 32 * j)
      (port + 2 ^ 16 * k) address fam s
    = UDPWrap.DoSend os wrap b offset length port address fam s.
Proof.
  intros os wrap b offset length port address fam s i j k.
  unfold UDPWrap.DoSend.
  rewrite !Uint32Value_wrap, port_wrap. reflexivity.
Qed.

(** An offset of 2^32 into a payload of one byte passes the assertions and
    sends the byte at offset 0. *)
Example send_offset_wraps_to_zero :
  exists s',
    UDPWrap.Send OsOk 4 (mk_Buffer 7 1) 4294967296 1 9000 (VStr "10.0.0.9")
      initial_state = Ret (VReq 0, s') /\
    uv_calls s' =
      [UvSend 0 4 (mk_uv_buf (mk_ptr 7 0) 1) 1
         (mk_sockaddr AF_INET "10.0.0.9" 9000)].
Proof.
  exists (sent_state 4 (mk_Buffer 7 1) 4294967296 1 9000 (VStr "10.0.0.9")
            AF_INET initial_state).
  split; reflexivity.
Qed.

(** X8.  [bind] reads its port and flags, and the four setters their
    argument, modulo 2^32: arguments that differ by a multiple of 2^32 give
    the same call to libuv, the same result and the same state. *)
Theorem bind_and_setter_arguments_wrap :
  (forall os wrap address port flags fam s i j,
     UDPWrap.DoBind os wrap address (port + 2 ^ 32 * i) (flags + 2 ^ 32 * j)
       fam s
     = UDPWrap.DoBind os wrap address port flags fam s)
  /\
  (forall fn os wrap arg s i,
     UDPWrap.X fn os wrap (arg + 2 ^ 32 * i) s = UDPWrap.X fn os wrap arg s).
Proof.
  split.
  - intros os wrap address port flags fam s i j.
    unfold UDPWrap.DoBind. rewrite !Uint32Value_wrap. reflexivity.
  - intros fn os wrap arg s i.
    unfold UDPWrap.X. rewrite Int32Value_wrap. reflexivity.
Qed.

(** X9.  [recvStart] always returns a boolean.  It returns [false] exactly
    when libuv's call fails with a code other than [UV_EALREADY]: the
    socket was not armed and the operating system refused with such a code.
    A failure with [UV_EALREADY] is reported as [true] even on a socket that
    is not armed, which it leaves not armed. *)
Theorem recvStart_result :
  forall os h s,
  exists b s',
    UDPWrap.RecvStart os h s = Ret (VBool b, s') /\
    (b = false <->
     recv_armed (handles s h) = false /\
     exists e, os = OsFail e /\ is_EALREADY (code e) = false) /\
    (recv_armed (handles s' h) = true <->
     recv_armed (handles s h) = true \/ os = OsOk).
Proof.
  intros os h s. run_method.
  destruct (recv_armed (handles s h)) eqn:Harmed; simpl;
    [|destruct os as [|e]; simpl;
      [|destruct (is_EALREADY (code e)) eqn:Hcode; simpl]];
    eexists; eexists; (split; [reflexivity|]); simpl;
    rewrite ?Nat.eqb_refl, ?Harmed; simpl;
    repeat split; intros;
    repeat match goal with
      | H : _ /\ _ |- _ => destruct H
      | H : exists _, _ |- _ => destruct H
      | H : _ \/ _ |- _ => destruct H
      | H : OsFail _ = OsFail _ |- _ => injection H as <-
      end;
    try congruence; eauto.
Qed.

(** ** Receive events in sequence *)

(** X13.  A sequence of receive events never aborts, whatever the sizes and
    the results of the reads, and delivers its notifications in the order
    of the events: one [onmessage] notification on the socket of each event
    whose read was not empty, and nothing else. *)
Theorem recv_events_notify_in_order :
  forall l s,
  exists s' new,
    recv_events l s = Ret (tt, s') /\
    calls s' = calls s ++ new /\
    map cb_channel new =
      map (fun ev => (onmessage_sym, VSock (ev_handle ev)))
        (filter (fun ev => negb (ev_nread ev =? 0)) l).
Proof.
  induction l as [|ev l IH]; intros s.
  - exists s, []. simpl. unfold ret. rewrite app_nil_r. auto.
  - destruct (recv_event_effect (ev_handle ev) (ev_size ev) (ev_nread ev)
                (ev_addr ev) (ev_flags ev) (ev_err ev) s)
      as (s1 & new1 & Hrun1 & _ & _ & _ & Hcalls1 & Hnew1).
    destruct (IH s1) as (s2 & new2 & Hrun2 & Hcalls2 & Hnew2).
    exists s2, (new1 ++ new2). simpl. unfold bind. rewrite Hrun1.
    split; [exact Hrun2|]. split.
    + rewrite Hcalls2, Hcalls1, app_assoc. reflexivity.
    + rewrite map_app, Hnew1, Hnew2.
      destruct (ev_nread ev =? 0); reflexivity.
Qed.

(** ** Requests in every reachable state *)

Section Requests.

Import UDPWrap Loop.

Lemma reachable_steps (s t : State) : reachable s -> steps s t -> reachable t.
Proof.
  intros Hreach. induction 1 as [|t u _ IH Hstep]; [exact Hreach|].
  exact (reach_step t u IH Hstep).
Qed.

(** Two sends accepted on a fresh process, on two sockets. *)
Lemma two_sends_run :
  exists s1 s2,
    Send OsOk 4 (mk_Buffer 7 5) 0 5 9000 (VStr "10.0.0.9") initial_state
      = Ret (VReq 0, s1) /\
    Send OsOk 5 (mk_Buffer 8 3) 1 2 9001 (VStr "10.0.0.9") s1
      = Ret (VReq 1, s2) /\
    reachable s2 /\ uv_queue s2 = [0%nat; 1%nat].
Proof.
  exists (sent_state 4 (mk_Buffer 7 5) 0 5 9000 (VStr "10.0.0.9") AF_INET
            initial_state).
  exists (sent_state 5 (mk_Buffer 8 3) 1 2 9001 (VStr "10.0.0.9") AF_INET
            (sent_state 4 (mk_Buffer 7 5) 0 5 9000 (VStr "10.0.0.9") AF_INET
               initial_state)).
  split; [reflexivity|]. split; [reflexivity|]. split; [|reflexivity].
  apply (reach_step
           (sent_state 4 (mk_Buffer 7 5) 0 5 9000 (VStr "10.0.0.9") AF_INET
              initial_state)).
  - apply (reach_step initial_state); [exact reach_initial|].
    apply (step_send _ _ OsOk 4 (mk_Buffer 7 5) 0 5 9000 (VStr "10.0.0.9")
             AF_INET (VReq 0)).
    reflexivity.
  - apply (step_send _ _ OsOk 5 (mk_Buffer 8 3) 1 2 9001 (VStr "10.0.0.9")
             AF_INET (VReq 1)).
    reflexivity.
Qed.

(** The same two sends, and the completion of the younger one reported
    first. *)
Lemma younger_first_run :
  exists s1 s2 s3,
    Send OsOk 4 (mk_Buffer 7 5) 0 5 9000 (VStr "10.0.0.9") initial_state
      = Ret (VReq 0, s1) /\
    Send OsOk 5 (mk_Buffer 8 3) 1 2 9001 (VStr "10.0.0.9") s1
      = Ret (VReq 1, s2) /\
    complete_send 1 OsOk s2 = Ret (tt, s3) /\
    reachable s3 /\ uv_queue s3 = [0%nat].
Proof.
  destruct two_sends_run as (s1 & s2 & Hone & Htwo & Hreach & Hq).
  destruct (reachable_invariant s2 Hreach) as [Hwf _].
  destruct (complete_send_step 1 OsOk s2 (queue_ok_of_wf s2 Hwf))
    as (s3 & Hrun & _ & Hq3 & _).
  exists s1, s2, s3.
  split; [exact Hone|]. split; [exact Htwo|]. split; [exact Hrun|].
  split; [|rewrite Hq3, Hq; reflexivity].
  exact (reach_step s2 s3 Hreach (step_completion s2 s3 1%nat OsOk Hrun)).
Qed.

End Requests.

(** X10.  In every reachable state the live send requests are exactly the
    requests waiting in libuv's queue: [send] destroys the request it made
    when libuv refuses it, and [OnSend] destroys the request it reports, so
    no request outlives its completion and none is completed after it is
    destroyed. *)
Theorem live_iff_queued :
  forall s,
    reachable s ->
    forall r, live r s = true <-> In r (uv_queue s).
Proof.
  intros s Hreach r.
  destruct (reachable_requests s Hreach) as [Horphan _].
  destruct (reachable_invariant s Hreach) as [Hwf _].
  apply wf_iff in Hwf. unfold live. split.
  - destruct (find_req r (reqs s)) as [w|] eqn:Hw; [|discriminate].
    intros _. apply (Horphan (r, w)), find_req_In, Hw.
  - intros Hin.
    destruct (req_ready_live s r (wf_queue_ready s Hwf r Hin))
      as (w & h & Hw & _).
    rewrite Hw. reflexivity.
Qed.

Lemma live_iff_queued_witness :
  exists s1 s2 s3,
    UDPWrap.Send OsOk 4 (mk_Buffer 7 5) 0 5 9000 (VStr "10.0.0.9")
      initial_state = Ret (VReq 0, s1) /\
    UDPWrap.Send OsOk 5 (mk_Buffer 8 3) 1 2 9001 (VStr "10.0.0.9") s1
      = Ret (VReq 1, s2) /\
    Loop.complete_send 1 OsOk s2 = Ret (tt, s3) /\
    live 0 s3 = true /\ live 1 s3 = false.
Proof.
  destruct younger_first_run as (s1 & s2 & s3 & H1 & H2 & H3 & Hreach & Hq).
  exists s1, s2, s3.
  split; [exact H1|]. split; [exact H2|]. split; [exact H3|]. split.
  - apply (proj2 (live_iff_queued s3 Hreach 0%nat)).
    rewrite Hq. left. reflexivity.
  - destruct (live 1 s3) eqn:Hlive; [|reflexivity].
    apply (proj1 (live_iff_queued s3 Hreach 1%nat)) in Hlive.
    rewrite Hq in Hlive. destruct Hlive as [Heq|[]]. discriminate Heq.
Defined.

(** X11.  In every reachable state, whatever methods, completions and
    receive events led to it, each send request has at most one completion
    delivered, and none as long as it waits in libuv's queue. *)
Theorem completion_at_most_once :
  forall s,
    reachable s ->
    forall r, (completions r (calls s) + queued r s <= 1)%nat.
Proof.
  intros s Hreach r.
  destruct (reachable_requests s Hreach) as [_ Hacc].
  exact (Hacc r).
Qed.

Lemma completion_at_most_once_witness :
  exists s1 s2 s3,
    UDPWrap.Send OsOk 4 (mk_Buffer 7 5) 0 5 9000 (VStr "10.0.0.9")
      initial_state = Ret (VReq 0, s1) /\
    UDPWrap.Send OsOk 5 (mk_Buffer 8 3) 1 2 9001 (VStr "10.0.0.9") s1
      = Ret (VReq 1, s2) /\
    Loop.complete_send 1 OsOk s2 = Ret (tt, s3) /\
    completions 0 (calls s3) = 0%nat /\
    (completions 1 (calls s3) <= 1)%nat.
Proof.
  destruct younger_first_run as (s1 & s2 & s3 & H1 & H2 & H3 & Hreach & Hq).
  exists s1, s2, s3.
  split; [exact H1|]. split; [exact H2|]. split; [exact H3|].
  pose proof (completion_at_most_once s3 Hreach 0%nat) as H0.
  pose proof (completion_at_most_once s3 Hreach 1%nat) as Hyoung.
  unfold queued in H0. rewrite Hq in H0. simpl in H0.
  split; lia.
Defined.

(** X12.  From a reachable state the loop, reporting the completions of
    any requests in any order, never trips an assertion of [OnSend] and
    ends in a reachable state; once every request libuv held has been
    reported, the queue is empty and no send request is left alive. *)
Theorem loop_completes_every_request :
  forall s,
    reachable s ->
    forall sch,
    exists s',
      Loop.run_completions sch s = Ret (tt, s') /\
      reachable s' /\
      ((forall r, In r (uv_queue s) -> In r (map fst sch)) ->
       uv_queue s' = [] /\ reqs s' = []).
Proof.
  intros s Hreach sch.
  destruct (reachable_invariant s Hreach) as [Hwf _].
  destruct (run_completions_spec sch s (queue_ok_of_wf s Hwf))
    as (s' & Hrun & _ & Hq & _).
  assert (Hreach' : reachable s')
    by exact (reachable_steps s s' Hreach
                (run_completions_steps sch s s' Hrun)).
  exists s'. split; [exact Hrun|]. split; [exact Hreach'|].
  intros Hall.
  assert (Hempty : uv_queue s' = []).
  { destruct (uv_queue s') as [|x q] eqn:Hqueue; [reflexivity|].
    exfalso. destruct (proj1 (Hq x) (or_introl eq_refl)) as [Hin Hnot].
    exact (Hnot (Hall x Hin)). }
  split; [exact Hempty|].
  destruct (reachable_requests s' Hreach') as [Horphan _].
  destruct (reqs s') as [|e l] eqn:Hreqs; [reflexivity|].
  exfalso. specialize (Horphan e). rewrite Hreqs, Hempty in Horphan.
  apply Horphan. left. reflexivity.
Qed.

Lemma loop_completes_every_request_witness :
  exists s1 s2 s',
    UDPWrap.Send OsOk 4 (mk_Buffer 7 5) 0 5 9000 (VStr "10.0.0.9")
      initial_state = Ret (VReq 0, s1) /\
    UDPWrap.Send OsOk 5 (mk_Buffer 8 3) 1 2 9001 (VStr "10.0.0.9") s1
      = Ret (VReq 1, s2) /\
    Loop.run_completions
      [(1%nat, OsFail (mk_uv_err UV_ETRANSMIT 111)); (0%nat, OsOk)] s2
      = Ret (tt, s') /\
    uv_queue s' = [] /\ reqs s' = [].
Proof.
  destruct two_sends_run as (s1 & s2 & H1 & H2 & Hreach & Hq).
  destruct (loop_completes_every_request s2 Hreach
              [(1%nat, OsFail (mk_uv_err UV_ETRANSMIT 111)); (0%nat, OsOk)])
    as (s' & Hrun & _ & Hdone).
  exists s1, s2, s'.
  split; [exact H1|]. split; [exact H2|]. split; [exact Hrun|].
  apply Hdone. intros r. rewrite Hq. simpl. tauto.
Defined.
